(** * Batch experiment orchestrator (scripts/create_batch_experiments.ts)

    A shallow embedding of the batch driver: the design enumerator, the unit
    provisioner, the completion poller, the result exporter, the window
    scheduler with its incremental checkpoint, and the dialogue renderer.

    Conventions.
    - A JavaScript value that may be [undefined] is an [option].
    - [a || b] on strings and numbers follows JavaScript truthiness: the
      empty string and [0] are falsy.
    - A [fetch] either rejects (transport failure, the runtime's
      [TypeError: fetch failed]), or resolves to a response that is not ok
      (status and body text), or resolves to an ok response whose body parses
      to the shape the script reads.
    - Console output is not modelled: it never feeds back into control flow. *)

From Stdlib Require Import ZArith Lia Ascii String DecimalString.
From stdpp Require Import base option list strings.

Open Scope string_scope.
Open Scope nat_scope.
Open Scope list_scope.

(** ** JavaScript helpers *)

(** Truthiness of a possibly undefined string. *)
Definition truthy (s : option string) : bool :=
  match s with
  | Some s => negb (String.eqb s "")
  | None => false
  end.

(** [n || d] for a possibly undefined number. *)
Definition num_or (n : option Z) (d : Z) : Z :=
  match n with
  | Some v => if (v =? 0)%Z then d else v
  | None => d
  end.

Definition count_or (n : option nat) (d : nat) : nat :=
  match n with
  | Some (S k) => S k
  | _ => d
  end.

(** Template-literal rendering of a number and of a possibly undefined
    string. *)
Definition show_nat (n : nat) : string := NilZero.string_of_uint (Nat.to_uint n).

Definition show (s : option string) : string := default "undefined" s.

(** ** Exported conversation data *)

Record Profile := {
  profile_name : option string;
  profile_avatar : option string;
  profile_pronouns : option string;
}.

Record Timestamp := { seconds : Z; nanoseconds : Z }.

(** A chat message as the export endpoint returns it. *)
Record ChatMessage := {
  cm_id : string;
  cm_message : string;
  cm_timestamp : option Timestamp;
  cm_profile : option Profile;
  cm_type : string;
  cm_agentId : option string;
}.

(** JavaScript objects used as maps keep insertion order, which
    [Object.entries] exposes: association lists. *)
Record CohortData := { chatMap : option (list (string * list ChatMessage)) }.

Record ExportData := { cohortMap : option (list (string * CohortData)) }.

Fixpoint assoc {A} (k : string) (m : list (string * A)) : option A :=
  match m with
  | [] => None
  | (k', v) :: m => if String.eqb k k' then Some v else assoc k m
  end.

(** [data.cohortMap?.[cohortId]] *)
Definition cohortData (data : ExportData) (cohortId : string) : option CohortData :=
  cohortMap data ≫= assoc cohortId.

(** ** Outcome of one [fetch] *)

(** A rejected [fetch] is the runtime's [TypeError: fetch failed]. *)
Inductive fetched (A : Type) :=
| Rejected
| NotOk (status : nat) (errorText : string)
| Ok (data : A).
Arguments Rejected {A}.
Arguments NotOk {A} status errorText.
Arguments Ok {A} data.

Definition fetch_failed : string := "fetch failed".

(** ** Configuration *)

Record ScenarioText := {
  title : string;
  description : string;
  chatDurationMinutes : option nat;
}.

Record VoiceCard := {
  words_per_turn : string;
  energy : string;
  register : string;
  uses_contractions : bool;
  voice_examples : list string;
}.

Record Ocean := { ocean_O : Z; ocean_C : Z; ocean_E : Z; ocean_A : Z; ocean_N : Z }.

Record ScenarioParticipant := {
  sp_name : string;
  sp_description : string;
  ocean : option Ocean;
  voice_card : option VoiceCard;
}.

Record Scenario := {
  scenario_type : string;
  scenario : string;
  participants : list ScenarioParticipant;
  participant_count : nat;
}.

(** The fields [createBatchExperiments] reads.  [scenarioText] is the field
    [scenario] of the source (the name is taken by [Scenario]).
    [maxConcurrent] is a count: the command line parses it as an integer and
    the loop below makes sense for a positive one only. *)
Record BatchConfig := {
  apiKey : string;
  baseUrl : string;
  scenarioText : ScenarioText;
  waitForCompletion : bool;
  pollIntervalMs : option Z;
  maxWaitTimeMs : option Z;
  testMode : bool;
  behaviorFilter : option string;
  excludeBehavior : option string;
  maxConcurrent : option nat;
  outputPath : option string;
  scenarios : option (list Scenario);
}.

(** ** Completion poller *)

(** What one iteration of the polling loop meets: the clock reading of the
    loop guard and the outcome of the export fetch. *)
Record tick := { now : Z; reply : fetched ExportData }.

(** [chatStages.reduce((sum, [, msgs]) => sum + msgs.length, 0)] over
    [Object.entries(cohortData?.chatMap || {})]. *)
Definition totalMessages (data : ExportData) (cohortId : string) : nat :=
  foldl (fun sum stage => sum + length stage.2) 0
        (default [] (cohortData data cohortId ≫= chatMap)).

(** The [while] loop of [waitForExperimentCompletion], one tick per
    iteration.  The sleep of [pollInterval] at the end of an iteration shows
    in the clock reading of the next tick only.  [None]: the trace ends
    while the loop is still running. *)
Fixpoint poll (maxWaitTime startTime : Z) (cohortId : string)
    (lastMessageCount stableCount : nat) (trace : list tick) : option bool :=
  match trace with
  | [] => None
  | t :: trace =>
    if (now t - startTime <? maxWaitTime)%Z then
      match reply t with
      | Rejected =>
        poll maxWaitTime startTime cohortId lastMessageCount stableCount trace
      | NotOk _ _ =>
        poll maxWaitTime startTime cohortId lastMessageCount stableCount trace
      | Ok data =>
        let total := totalMessages data cohortId in
        if (0 <? total) && (total =? lastMessageCount) then
          let stableCount := S stableCount in
          if 15 <=? stableCount then Some true
          else poll maxWaitTime startTime cohortId total stableCount trace
        else poll maxWaitTime startTime cohortId total 0 trace
      end
    else Some false
  end.

Definition waitForExperimentCompletion (config : BatchConfig)
    (startTime : Z) (trace : list tick) (experimentId cohortId : string)
    : option bool :=
  let maxWaitTime := num_or (maxWaitTimeMs config) (20 * 60 * 1000) in
  poll maxWaitTime startTime cohortId 0 0 trace.

(** The message totals the loop reads: one per ok response met while the
    guard still holds. *)
Fixpoint samples (maxWaitTime startTime : Z) (cohortId : string)
    (trace : list tick) : list nat :=
  match trace with
  | [] => []
  | t :: trace =>
    if (now t - startTime <? maxWaitTime)%Z then
      match reply t with
      | Ok data =>
        totalMessages data cohortId :: samples maxWaitTime startTime cohortId trace
      | _ => samples maxWaitTime startTime cohortId trace
      end
    else []
  end.

(** Some guard of the trace finds the wait exhausted. *)
Definition deadline_reached (maxWaitTime startTime : Z) (trace : list tick) : Prop :=
  ∃ t, t ∈ trace ∧ (maxWaitTime ≤ now t - startTime)%Z.

(** [k] consecutive samples carry the same positive total. *)
Definition stable_run (k : nat) (l : list nat) : Prop :=
  ∃ i c, 0 < c ∧ ∀ j, j < k → l !! (i + j) = Some c.

(** ** More JavaScript helpers: strings *)

Definition newline : string := String "010"%char "".

(** [lines.join(sep)] *)
Fixpoint join (sep : string) (lines : list string) : string :=
  match lines with
  | [] => ""
  | [l] => l
  | l :: lines => l +:+ sep +:+ join sep lines
  end.

Fixpoint string_map (f : ascii → ascii) (s : string) : string :=
  match s with
  | EmptyString => EmptyString
  | String c s => String (f c) (string_map f s)
  end.

Definition between (lo hi : nat) (c : ascii) : bool :=
  (lo <=? nat_of_ascii c) && (nat_of_ascii c <=? hi).

(** [toUpperCase], [toLowerCase] and [replace(/[^a-z0-9]/g, '_')] on ASCII
    text. *)
Definition toUpperCase : string → string :=
  string_map (fun c => if between 97 122 c then ascii_of_nat (nat_of_ascii c - 32) else c).

Definition toLowerCase : string → string :=
  string_map (fun c => if between 65 90 c then ascii_of_nat (nat_of_ascii c + 32) else c).

Definition underscore_non_alnum : string → string :=
  string_map (fun c => if between 97 122 c || between 48 57 c then c else "_"%char).

(** [s.split(',')] *)
Fixpoint split_commas (s : string) : list string :=
  match s with
  | EmptyString => [""]
  | String c s =>
    if Ascii.eqb c ","%char then "" :: split_commas s
    else match split_commas s with
         | [] => [String c ""]
         | w :: ws => String c w :: ws
         end
  end.

Definition is_space (c : ascii) : bool :=
  between 9 13 c || Ascii.eqb c " "%char.

Fixpoint trim_start (s : string) : string :=
  match s with
  | String c s' => if is_space c then trim_start s' else s
  | EmptyString => EmptyString
  end.

Fixpoint trim_end (s : string) : string :=
  match s with
  | EmptyString => EmptyString
  | String c s' =>
    match trim_end s' with
    | EmptyString => if is_space c then EmptyString else String c EmptyString
    | t => String c t
    end
  end.

(** [s.trim()], over ASCII white space. *)
Definition trim (s : string) : string := trim_end (trim_start s).

(** [list.includes(name)] *)
Definition includes (l : list string) (name : string) : bool :=
  existsb (String.eqb name) l.

(** [s.replace(pattern, replacement)] with a string pattern: the first
    occurrence only.  The replacement used here has no [$] pattern. *)
Fixpoint replace (pattern replacement s : string) : string :=
  if String.prefix pattern s then
    replacement +:+ String.substring (String.length pattern) (String.length s) s
  else
    match s with
    | EmptyString => EmptyString
    | String c s' => String c (replace pattern replacement s')
    end.

(** [a || b] on possibly undefined strings. *)
Definition str_or (a : option string) (b : string) : string :=
  match a with
  | Some s => if String.eqb s "" then b else s
  | None => b
  end.

(** ** Facilitator behaviours and participant personas *)

(** [temperature] in hundredths.  It is configuration only: the request body
    sent to the server carries the model name alone. *)
Record ModelSettings := { model : string; temperature : nat }.

Record FacilitatorBehavior := {
  fb_name : string;
  fb_agentId : string;
  fb_promptContext : string;
  fb_modelSettings : ModelSettings;
}.

Definition gemini (temperature : nat) : ModelSettings :=
  {| model := "gemini-2.5-flash"; temperature := temperature |}.

(** The five behaviours, in source order.  Each prompt is cut to the
    sentence that states the role; the shared preamble and the naturalness
    rules are prose that nothing in the script inspects. *)
Definition FACILITATOR_BEHAVIORS : list FacilitatorBehavior := [
  {| fb_name := "silent"; fb_agentId := "gemini_silent";
     fb_promptContext := "Your role: Stay mostly silent.";
     fb_modelSettings := gemini 60 |};
  {| fb_name := "short_responses"; fb_agentId := "gemini_short";
     fb_promptContext := "Your role: Participate with brief, natural responses.";
     fb_modelSettings := gemini 60 |};
  {| fb_name := "clarifying_questions"; fb_agentId := "gemini_clarifying";
     fb_promptContext := "Your role: Ask clarifying questions.";
     fb_modelSettings := gemini 70 |};
  {| fb_name := "direct_fast_consensus"; fb_agentId := "gemini_direct";
     fb_promptContext := "Your role: Be direct and push for decisions.";
     fb_modelSettings := gemini 50 |};
  {| fb_name := "explanatory"; fb_agentId := "gemini_explanatory";
     fb_promptContext := "Your role: Offer helpful context when useful.";
     fb_modelSettings := gemini 70 |}
].

Record ParticipantPersona := {
  pp_agentId : string;
  pp_name : string;
  pp_pronouns : string;
  pp_promptContext : string;
  pp_modelSettings : ModelSettings;
}.

(** The six generic personas, prompts cut to the personality headline. *)
Definition basePersonas : list ParticipantPersona := [
  {| pp_agentId := "participant_sarah"; pp_name := "Sarah"; pp_pronouns := "she/her";
     pp_promptContext := "Your personality: OPINIONATED foodie";
     pp_modelSettings := gemini 80 |};
  {| pp_agentId := "participant_mike"; pp_name := "Mike"; pp_pronouns := "he/him";
     pp_promptContext := "Your personality: VERY budget-conscious";
     pp_modelSettings := gemini 70 |};
  {| pp_agentId := "participant_emma"; pp_name := "Emma"; pp_pronouns := "she/her";
     pp_promptContext := "Your personality: STRICT vegetarian";
     pp_modelSettings := gemini 70 |};
  {| pp_agentId := "participant_alex"; pp_name := "Alex"; pp_pronouns := "they/them";
     pp_promptContext := "Your personality: VERY adventurous";
     pp_modelSettings := gemini 90 |};
  {| pp_agentId := "participant_jordan"; pp_name := "Jordan"; pp_pronouns := "he/him";
     pp_promptContext := "Your personality: PICKY eater";
     pp_modelSettings := gemini 60 |};
  {| pp_agentId := "participant_taylor"; pp_name := "Taylor"; pp_pronouns := "she/her";
     pp_promptContext := "Your personality: Group diplomat";
     pp_modelSettings := gemini 70 |}
].

(** [basePersonas.slice(0, count)] *)
Definition generateParticipantPersonas (count : nat) : list ParticipantPersona :=
  take count basePersonas.

(** Each [if ... else if ...] chain pushes at most one trait. *)
Definition oceanToPersonalityDescription (ocean : option Ocean) : string :=
  match ocean with
  | None => ""
  | Some ocean =>
    let traits := [] in
    let traits :=
      if (8 <=? ocean_O ocean)%Z then
        traits ++ ["very open to new ideas and experiences"]
      else if (6 <=? ocean_O ocean)%Z then
        traits ++ ["moderately curious and open-minded"]
      else if (ocean_O ocean <=? 3)%Z then
        traits ++ ["prefers familiar approaches and practical solutions"]
      else traits in
    let traits :=
      if (8 <=? ocean_C ocean)%Z then traits ++ ["highly organized and detail-oriented"]
      else if (6 <=? ocean_C ocean)%Z then traits ++ ["reasonably organized"]
      else if (ocean_C ocean <=? 3)%Z then traits ++ ["flexible and spontaneous"]
      else traits in
    let traits :=
      if (8 <=? ocean_E ocean)%Z then traits ++ ["outgoing and talkative"]
      else if (6 <=? ocean_E ocean)%Z then traits ++ ["moderately sociable"]
      else if (ocean_E ocean <=? 3)%Z then
        traits ++ ["reserved and thoughtful before speaking"]
      else traits in
    let traits :=
      if (8 <=? ocean_A ocean)%Z then traits ++ ["cooperative and accommodating"]
      else if (6 <=? ocean_A ocean)%Z then traits ++ ["generally friendly"]
      else if (ocean_A ocean <=? 3)%Z then
        traits ++ ["direct and willing to challenge ideas"]
      else traits in
    let traits :=
      if (7 <=? ocean_N ocean)%Z then traits ++ ["tends to feel stressed under pressure"]
      else if (ocean_N ocean <=? 3)%Z then traits ++ ["calm and confident"]
      else traits in
    match traits with
    | [] => ""
    | _ => "Your personality: You are " +:+ join ", " traits +:+ "."
    end
  end.

(** The variable parts of the voice-card prompt; its fixed rules are left
    out, as are those of the persona prompt below. *)
Definition formatVoiceCardPrompt (vc : VoiceCard) : string :=
  "SPEAKING STYLE: " +:+ words_per_turn vc +:+ " words per turn; energy "
    +:+ energy vc +:+ "; register " +:+ register vc
    +:+ (if uses_contractions vc then "" else " (formal)")
    +:+ "; example: " +:+ show (head (voice_examples vc)).

(** One persona per scenario participant, in the scenario's order. *)
Definition scenarioToPersonas (s : Scenario) : list ParticipantPersona :=
  imap (fun idx participant =>
    let oceanDescription := oceanToPersonalityDescription (ocean participant) in
    let voiceCardPrompt := from_option formatVoiceCardPrompt "" (voice_card participant) in
    {| pp_agentId :=
         "participant_" +:+ underscore_non_alnum (toLowerCase (sp_name participant));
       pp_name := sp_name participant;
       pp_pronouns := "they/them";
       pp_promptContext :=
         "You are " +:+ sp_name participant +:+ " in a Google Meet video call."
           +:+ " SCENARIO: " +:+ scenario s
           +:+ " YOUR ROLE: " +:+ sp_description participant
           +:+ oceanDescription +:+ voiceCardPrompt;
       pp_modelSettings := gemini (70 + idx * 5) |})
    (participants s).

(** ** The remote API *)

(** The requests the script sends, with the parts of each body that vary.
    (The stage list of a new experiment is constant up to two fresh UUIDs.) *)
Inductive request :=
| PostExperiment (name description : string) (timeLimitInMinutes : nat)
| PostCohort (experimentId description : string)
    (minParticipantsPerCohort maxParticipantsPerCohort : nat)
| PostParticipant (experimentId cohortId : string) (name pronouns : option string)
    (agentId promptContext model : string)
| GetExport (experimentId : string).

(** What the script runs against.  Every endpoint answers a request in view
    of all the requests served before it, so two equal requests may get
    different answers.
    - [completionOrder i n]: for the window that starts at spec [i] and holds
      [n] units, the order in which the [n] provisioning promises settle.
    - [pollClock experimentId cohortId]: the start time and the ticks met by
      the poller of that unit.
    - [toLocaleTimeString ms]: the process's rendering of a time of day. *)
Record environment := {
  postExperiment : list request → request → fetched (string * string);
  postCohort : list request → request → fetched string;
  postParticipant : list request → request → fetched string;
  getExport : list request → request → fetched ExportData;
  completionOrder : nat → nat → list nat;
  pollClock : string → string → Z * list tick;
  toLocaleTimeString : Z → string;
}.

(** An asynchronous call: it extends the log of requests and either throws
    (the error's message) or returns. *)
Definition io (T : Type) : Type := list request → (string + T) * list request.

#[global] Instance io_ret : MRet io := fun T x log => (inr x, log).

(** [await]: a throw skips what follows. *)
#[global] Instance io_bind : MBind io := fun T U k m log =>
  match m log with
  | (inl message, log) => (inl message, log)
  | (inr x, log) => k x log
  end.

(** [await fetch(...)], the [response.ok] test and [await response.json()]
    of the four API functions; [what] names the failed action. *)
Definition request_json {T} (endpoint : list request → request → fetched T)
    (q : request) (what : string) : io T :=
  fun log =>
    match endpoint log q with
    | Rejected => (inl fetch_failed, log ++ [q])
    | NotOk status errorText =>
      (inl ("Failed to " +:+ what +:+ ": " +:+ show_nat status +:+ " " +:+ errorText),
       log ++ [q])
    | Ok data => (inr data, log ++ [q])
    end.

(** [for (const x of xs) await f(x)] *)
Fixpoint for_each {T} (xs : list T) (f : T → io string) : io unit :=
  match xs with
  | [] => mret tt
  | x :: xs => _ ← f x; for_each xs f
  end.

Definition createExperiment (env : environment) (config : BatchConfig)
    (facilitatorName : string) (groupSize : nat) : io (string * string) :=
  request_json (postExperiment env)
    (PostExperiment
       ("Restaurant_" +:+ facilitatorName +:+ "_" +:+ show_nat groupSize +:+ "ppl")
       (description (scenarioText config) +:+ " | Gemini: " +:+ facilitatorName
          +:+ " | Group size: " +:+ show_nat groupSize)
       (count_or (chatDurationMinutes (scenarioText config)) 10))
    "create experiment".

Definition createCohort (env : environment) (config : BatchConfig)
    (experimentId : string) (totalParticipants : nat) : io string :=
  request_json (postCohort env)
    (PostCohort experimentId
       (show_nat totalParticipants +:+ " participants total (1 facilitator + "
          +:+ show_nat (totalParticipants - 1) +:+ " participants)")
       totalParticipants totalParticipants)
    "create cohort".

Record AgentConfig := {
  ac_agentId : string;
  ac_promptContext : string;
  ac_modelSettings : ModelSettings;
  ac_name : option string;
  ac_pronouns : option string;
}.

Definition createParticipantAgent (env : environment) (config : BatchConfig)
    (experimentId cohortId : string) (agentConfig : AgentConfig) : io string :=
  request_json (postParticipant env)
    (PostParticipant experimentId cohortId (ac_name agentConfig)
       (ac_pronouns agentConfig) (ac_agentId agentConfig)
       (ac_promptContext agentConfig) (model (ac_modelSettings agentConfig)))
    "create participant".

Definition facilitator_agent (behavior : FacilitatorBehavior) : AgentConfig :=
  {| ac_agentId := fb_agentId behavior;
     ac_promptContext := fb_promptContext behavior;
     ac_modelSettings := fb_modelSettings behavior;
     ac_name := Some "Gemini";
     ac_pronouns := None |}.

Definition persona_agent (persona : ParticipantPersona) : AgentConfig :=
  {| ac_agentId := pp_agentId persona;
     ac_promptContext := pp_promptContext persona;
     ac_modelSettings := pp_modelSettings persona;
     ac_name := Some (pp_name persona);
     ac_pronouns := Some (pp_pronouns persona) |}.

(** ** Design enumerator *)

Record ExperimentConfig := {
  ec_behavior : FacilitatorBehavior;
  ec_groupSize : nat;
  ec_scenario : option Scenario;
}.

(** The behaviours to run, or the error logged before the early
    [return []] (without the leading emoji). *)
Definition select_behaviors (config : BatchConfig)
    : string + list FacilitatorBehavior :=
  let behaviors :=
    if testMode config then take 1 FACILITATOR_BEHAVIORS else FACILITATOR_BEHAVIORS in
  let included :=
    if truthy (behaviorFilter config) then
      let filtered :=
        filter (fun b => fb_name b = show (behaviorFilter config))
               FACILITATOR_BEHAVIORS in
      match filtered with
      | [] => inl ("Unknown behavior: " +:+ show (behaviorFilter config))
      | _ => inr filtered
      end
    else inr behaviors in
  match included with
  | inl message => inl message
  | inr behaviors =>
    if truthy (excludeBehavior config) then
      let excludeList := trim <$> split_commas (show (excludeBehavior config)) in
      let behaviors :=
        filter (fun b => includes excludeList (fb_name b) = false) behaviors in
      match behaviors with
      | [] => inl "All behaviors excluded"
      | _ => inr behaviors
      end
    else inr behaviors
  end.

Definition groupSizes (config : BatchConfig) : list nat :=
  if testMode config then [2] else [2; 3; 4; 5; 6].

(** The two nested [for] loops that push onto [allExperiments]. *)
Definition allExperiments (config : BatchConfig)
    (behaviors : list FacilitatorBehavior) : list ExperimentConfig :=
  match scenarios config with
  | Some (s :: ss) =>
    foldl (fun all behavior =>
             foldl (fun all scenario =>
                      all ++ [{| ec_behavior := behavior;
                                 ec_groupSize := participant_count scenario;
                                 ec_scenario := Some scenario |}])
                   all (s :: ss))
          [] behaviors
  | _ =>
    foldl (fun all behavior =>
             foldl (fun all groupSize =>
                      all ++ [{| ec_behavior := behavior;
                                 ec_groupSize := groupSize;
                                 ec_scenario := None |}])
                   all (groupSizes config))
          [] behaviors
  end.

(** ** Unit provisioner *)

(** What one unit's provisioning leaves for the rest of its window: the
    object returned from the [try], or the one returned from the [catch]. *)
Record Setup := {
  setup_behavior : FacilitatorBehavior;
  setup_groupSize : nat;
  setup_scenario : option Scenario;
  setup_experimentId : option string;
  setup_cohortId : option string;
  setup_error : option string;
}.

Definition participantPersonas (e : ExperimentConfig) : list ParticipantPersona :=
  match ec_scenario e with
  | Some scenario => scenarioToPersonas scenario
  | None => generateParticipantPersonas (ec_groupSize e)
  end.

(** The body of the [try]: experiment, cohort, facilitator, participants. *)
Definition provision_steps (env : environment) (config : BatchConfig)
    (e : ExperimentConfig) : io (string * string) :=
  experiment ← createExperiment env config (fb_name (ec_behavior e)) (ec_groupSize e);
  cohortId ← createCohort env config experiment.1 (ec_groupSize e + 1);
  _ ← createParticipantAgent env config experiment.1 cohortId
        (facilitator_agent (ec_behavior e));
  _ ← for_each (participantPersonas e)
        (fun persona =>
           createParticipantAgent env config experiment.1 cohortId
             (persona_agent persona));
  mret (experiment.1, cohortId).

(** The [async] arrow mapped over a window: [try] the steps, [catch] the
    error's message. *)
Definition provision (env : environment) (config : BatchConfig)
    (e : ExperimentConfig) (log : list request) : Setup * list request :=
  match provision_steps env config e log with
  | (inr (experimentId, cohortId), log) =>
    ({| setup_behavior := ec_behavior e; setup_groupSize := ec_groupSize e;
        setup_scenario := ec_scenario e;
        setup_experimentId := Some experimentId; setup_cohortId := Some cohortId;
        setup_error := None |}, log)
  | (inl errorMessage, log) =>
    ({| setup_behavior := ec_behavior e; setup_groupSize := ec_groupSize e;
        setup_scenario := ec_scenario e;
        setup_experimentId := None; setup_cohortId := None;
        setup_error := Some errorMessage |}, log)
  end.

(** ** Result exporter *)

Record Message := {
  msg_id : string;
  msg_text : string;
  msg_timestamp : Z;
  msg_profile : option Profile;
  msg_messageType : string;
  msg_agentId : option string;
}.

Record ConversationExport := {
  ce_experimentId : option string;
  ce_cohortId : option string;
  ce_stageId : string;
  ce_messages : list Message;
}.

Definition export_message (msg : ChatMessage) : Message :=
  {| msg_id := cm_id msg;
     msg_text := cm_message msg;
     msg_timestamp := num_or (seconds <$> cm_timestamp msg) 0;
     msg_profile := cm_profile msg;
     msg_messageType := cm_type msg;
     msg_agentId := cm_agentId msg |}.

(** The conversations of one cohort in an export: one record per chat stage,
    in the order of the stages. *)
Definition conversations_in (data : ExportData) (experimentId cohortId : option string)
    : list ConversationExport :=
  match cohortData data (show cohortId) ≫= chatMap with
  | Some stages =>
    (fun stage =>
       {| ce_experimentId := experimentId; ce_cohortId := cohortId;
          ce_stageId := stage.1;
          ce_messages := export_message <$> stage.2 |}) <$> stages
  | None => []
  end.

(** The ids are those of the setup under export; the results loop asserts
    them present ([setup.experimentId!]) without checking. *)
Definition exportExperimentConversations (env : environment) (config : BatchConfig)
    (experimentId cohortId : option string) : io (list ConversationExport) :=
  data ← request_json (getExport env) (GetExport (show experimentId))
           "export experiment";
  mret (conversations_in data experimentId cohortId).

(** ** Results and the dialogue renderer *)

Inductive Status := success | failure.

(** [status] is ['success'] or ['error']; the constructor for the latter is
    [failure], the field [error] being taken. *)
Record ExperimentResult := {
  facilitatorBehavior : string;
  groupSize : nat;
  experimentId : option string;
  cohortId : option string;
  status : Status;
  error : option string;
  conversations : option (list ConversationExport);
}.

Definition dialogue_line (env : environment) (msg : Message) : string :=
  let name := str_or (msg_profile msg ≫= profile_name) "Unknown" in
  let msgTimestamp := msg_timestamp msg in
  let timeStr := toLocaleTimeString env (msgTimestamp * 1000) in
  "[" +:+ timeStr +:+ "] " +:+ name +:+ ": " +:+ msg_text msg.

(** The loop body of [generateSimpleDialogue]: what one result pushes onto
    [lines]. *)
Definition push_dialogue (env : environment) (lines : list string)
    (result : ExperimentResult) : list string :=
  match status result, conversations result with
  | success, Some (convo :: convos) =>
    let lines :=
      lines
        ++ ["=== " +:+ toUpperCase (facilitatorBehavior result) +:+ " ("
              +:+ show_nat (groupSize result) +:+ " participants) ==="]
        ++ ["Experiment ID: " +:+ show (experimentId result)]
        ++ [""] in
    let lines :=
      foldl (fun lines convo =>
               foldl (fun lines msg => lines ++ [dialogue_line env msg])
                     lines (ce_messages convo))
            lines (convo :: convos) in
    lines ++ [""] ++ [""]
  | _, _ => lines
  end.

Definition generateSimpleDialogue (env : environment)
    (results : list ExperimentResult) : string :=
  join newline (foldl (push_dialogue env) [] results).

(** ** Batch scheduler *)

(** [Promise.all] over tasks that share the request log: the tasks settle
    in the order given, and each result lands in the slot of its task.  A
    task runs as a whole when it settles.  The requests of concurrent tasks
    may interleave on the wire; since an endpoint answers every request of a
    run in view of a different log, whatever replies a task can meet under
    an interleaving it meets here under some environment. *)
Fixpoint settle {T} (order : list nat) (tasks : list (list request → T * list request))
    (slots : list (option T)) (log : list request)
    : list (option T) * list request :=
  match order with
  | [] => (slots, log)
  | i :: order =>
    match tasks !! i with
    | Some task =>
      let '(x, log) := task log in settle order tasks (<[i := Some x]> slots) log
    | None => settle order tasks slots log
    end
  end.

(** [None]: some promise of the window never settles. *)
Definition promise_all {T} (order : list nat)
    (tasks : list (list request → T * list request)) (log : list request)
    : option (list T) * list request :=
  let '(slots, log) := settle order tasks (replicate (length tasks) None) log in
  (mapM id slots, log).

(** What a write puts in a file: [JSON.stringify(results, null, 2)], or a
    text. *)
Inductive content :=
| Json (results : list ExperimentResult)
| Text (text : string).

(** The state of a run: the results pushed so far, the log of requests, the
    log of [fs.writeFileSync] calls, and the lines sent to [console.error]. *)
Record run := {
  results : list ExperimentResult;
  calls : list request;
  writes : list (string * content);
  errors : list string;
}.

Definition empty_run : run :=
  {| results := []; calls := []; writes := []; errors := [] |}.

(** The body of [for (const setup of batchSetups)].  The test [if (setup.error)]
    is on the truthiness of the message. *)
Definition record_setup (env : environment) (config : BatchConfig)
    (setup : Setup) (log : list request) : ExperimentResult * list request :=
  if truthy (setup_error setup) then
    ({| facilitatorBehavior := fb_name (setup_behavior setup);
        groupSize := setup_groupSize setup;
        experimentId := Some "N/A";
        cohortId := Some "N/A";
        status := failure;
        error := setup_error setup;
        conversations := None |}, log)
  else
    let '(exported, log) :=
      exportExperimentConversations env config
        (setup_experimentId setup) (setup_cohortId setup) log in
    let conversations :=
      match exported with
      | inr conversations => conversations
      | inl _ => []
      end in
    ({| facilitatorBehavior := fb_name (setup_behavior setup);
        groupSize := setup_groupSize setup;
        experimentId := setup_experimentId setup;
        cohortId := setup_cohortId setup;
        status := success;
        error := None;
        conversations := Some conversations |}, log).

Definition dialoguePath (config : BatchConfig) : string :=
  str_or (replace ".json" "_dialogues.txt" <$> outputPath config)
         "./batch_dialogues.txt".

(** The checkpoint at the end of a window. *)
Definition checkpoint (env : environment) (config : BatchConfig)
    (results : list ExperimentResult) : list (string * content) :=
  if truthy (outputPath config) then
    [(show (outputPath config), Json results);
     (dialoguePath config, Text (generateSimpleDialogue env results))]
  else [].

(** One iteration of the window loop, at index [i]. *)
Definition window (env : environment) (config : BatchConfig)
    (all : list ExperimentConfig) (i : nat) (st : run) : option run :=
  let maxConcurrent := count_or (maxConcurrent config) 3 in
  let batch := take maxConcurrent (drop i all) in
  let '(settled, log) :=
    promise_all (completionOrder env i (length batch))
      (provision env config <$> batch) (calls st) in
  batchSetups ← settled;
  let successfulSetups :=
    filter (fun s => truthy (setup_experimentId s) && truthy (setup_cohortId s) = true)
           batchSetups in
  _ ← (if waitForCompletion config && (0 <? length successfulSetups) then
         mapM (fun setup =>
                 let clock :=
                   pollClock env (show (setup_experimentId setup))
                     (show (setup_cohortId setup)) in
                 waitForExperimentCompletion config clock.1 clock.2
                   (show (setup_experimentId setup)) (show (setup_cohortId setup)))
              successfulSetups
       else Some []);
  let '(results, log) :=
    foldl (fun '(results, log) setup =>
             let '(result, log) := record_setup env config setup log in
             (results ++ [result], log))
          (results st, log) batchSetups in
  Some {| results := results; calls := log;
          writes := writes st ++ checkpoint env config results;
          errors := errors st |}.

(** [for (let i = 0; i < allExperiments.length; i += maxConcurrent)], with
    one unit of [fuel] per iteration. *)
Fixpoint windows (env : environment) (config : BatchConfig)
    (all : list ExperimentConfig) (fuel i : nat) (st : run) : option run :=
  if i <? length all then
    match fuel with
    | 0 => None
    | S fuel =>
      st ← window env config all i st;
      windows env config all fuel (i + count_or (maxConcurrent config) 3) st
    end
  else Some st.

(** The run of [createBatchExperiments]; its return value is [results].
    [None]: the run is still waiting on a promise. *)
Definition createBatchExperiments (env : environment) (config : BatchConfig)
    : option run :=
  match select_behaviors config with
  | inl message =>
    Some {| results := []; calls := []; writes := []; errors := [message] |}
  | inr behaviors =>
    let all := allExperiments config behaviors in
    windows env config all (length all) 0 empty_run
  end.

(** ** Vocabulary of the properties *)

(** A filled slot holds what its task returned on some log. *)
Definition slots_sound {T} (tasks : list (list request → T * list request))
    (slots : list (option T)) : Prop :=
  ∀ i x, slots !! i = Some (Some x) →
    ∃ task l, tasks !! i = Some task ∧ x = (task l).1.

(** [Math.ceil(a / b)] on counts. *)
Definition ceil_div (a b : nat) : nat := (a + b - 1) / b.

(** The specs a run enumerates; none when it returns early. *)
Definition enumerated (config : BatchConfig) : list ExperimentConfig :=
  match select_behaviors config with
  | inl _ => []
  | inr behaviors => allExperiments config behaviors
  end.

(** The promises of a run settle: the provisioning promises of each window
    settle in some order, each once, and when completion is awaited the
    clock of every poller reaches its deadline or its conversation
    stabilises. *)
Definition promises_settle (env : environment) (config : BatchConfig) : Prop :=
  (∀ i n, completionOrder env i n ≡ₚ seq 0 n)
  ∧ (waitForCompletion config = true →
     ∀ experimentId cohortId,
       is_Some (waitForExperimentCompletion config
                  (pollClock env experimentId cohortId).1
                  (pollClock env experimentId cohortId).2 experimentId cohortId)).

(** The result a spec ends in: its setup is what [provision] returned on
    some log, and the result is what [record_setup] pushed on some log. *)
Definition unit_result (env : environment) (config : BatchConfig)
    (e : ExperimentConfig) (r : ExperimentResult) : Prop :=
  ∃ l1 l2, r = (record_setup env config (provision env config e l1).1 l2).1.

(** The run after its first [k] windows. *)
Fixpoint after_windows (env : environment) (config : BatchConfig)
    (all : list ExperimentConfig) (k : nat) : option run :=
  match k with
  | 0 => Some empty_run
  | S k =>
    st ← after_windows env config all k;
    window env config all (k * count_or (maxConcurrent config) 3) st
  end.

(** The checkpoints the loop writes from index [i] on, read off the final
    result list [rs] of a run over [n] specs: its window [k] saves the first
    [i + k * budget] results. *)
Definition checkpoints_from (env : environment) (config : BatchConfig)
    (i n : nat) (rs : list ExperimentResult) : list (string * content) :=
  flat_map (fun k =>
              checkpoint env config
                (take (i + k * count_or (maxConcurrent config) 3) rs))
           (seq 1 (ceil_div (n - i) (count_or (maxConcurrent config) 3))).

(** The inner axis of the design: the scenarios when some are loaded, the
    group sizes otherwise; and the spec of a behaviour and a point of the
    axis. *)
Definition axis (config : BatchConfig) : list (nat * option Scenario) :=
  match scenarios config with
  | Some (s :: ss) => (fun s => (participant_count s, Some s)) <$> (s :: ss)
  | _ => (fun groupSize => (groupSize, None)) <$> groupSizes config
  end.

Definition spec_of (behavior : FacilitatorBehavior) (x : nat * option Scenario)
    : ExperimentConfig :=
  {| ec_behavior := behavior; ec_groupSize := x.1; ec_scenario := x.2 |}.

(** What identifies a spec in a result. *)
Definition spec_label (e : ExperimentConfig) : string * nat :=
  (fb_name (ec_behavior e), ec_groupSize e).

Definition result_label (r : ExperimentResult) : string * nat :=
  (facilitatorBehavior r, groupSize r).

(** The two shapes of a result. *)
Definition error_result (e : ExperimentConfig) (message : string) : ExperimentResult :=
  {| facilitatorBehavior := fb_name (ec_behavior e);
     groupSize := ec_groupSize e;
     experimentId := Some "N/A";
     cohortId := Some "N/A";
     status := failure;
     error := Some message;
     conversations := None |}.

Definition success_result (e : ExperimentConfig) (experimentId cohortId : string)
    (conversations : list ConversationExport) : ExperimentResult :=
  {| facilitatorBehavior := fb_name (ec_behavior e);
     groupSize := ec_groupSize e;
     experimentId := Some experimentId;
     cohortId := Some cohortId;
     status := success;
     error := None;
     conversations := Some conversations |}.

(** An asynchronous call that only ever throws errors with a message. *)
Definition explains {T} (m : io T) : Prop :=
  ∀ l message l', m l = (inl message, l') → truthy (Some message) = true.

(** ** The provisioning plan *)

(** The message of the error a reply makes the script throw, if any. *)
Definition reply_error {T} (what : string) (r : fetched T) : option string :=
  match r with
  | Rejected => Some fetch_failed
  | NotOk status errorText =>
    Some ("Failed to " +:+ what +:+ ": " +:+ show_nat status +:+ " " +:+ errorText)
  | Ok _ => None
  end.

(** The error that request [q] meets when sent after [log]. *)
Definition refusal (env : environment) (log : list request) (q : request)
    : option string :=
  match q with
  | PostExperiment _ _ _ => reply_error "create experiment" (postExperiment env log q)
  | PostCohort _ _ _ _ => reply_error "create cohort" (postCohort env log q)
  | PostParticipant _ _ _ _ _ _ _ =>
    reply_error "create participant" (postParticipant env log q)
  | GetExport _ => reply_error "export experiment" (getExport env log q)
  end.

(** Sending the requests of a plan one after the other, up to and including
    the first that is refused: the error met, if any, and the log. *)
Fixpoint send_in_order (env : environment) (log : list request)
    (plan : list request) : option string * list request :=
  match plan with
  | [] => (None, log)
  | q :: plan =>
    match refusal env log q with
    | Some message => (Some message, log ++ [q])
    | None => send_in_order env (log ++ [q]) plan
    end
  end.

Definition participant_request (experimentId cohortId : string)
    (agentConfig : AgentConfig) : request :=
  PostParticipant experimentId cohortId (ac_name agentConfig)
    (ac_pronouns agentConfig) (ac_agentId agentConfig)
    (ac_promptContext agentConfig) (model (ac_modelSettings agentConfig)).

(** The four steps of a unit, for the ids the server assigns: the
    experiment, the cohort with both bounds at [groupSize + 1], the
    facilitator, and one participant agent per persona. *)
Definition provisioning_plan (config : BatchConfig) (e : ExperimentConfig)
    (experimentId cohortId : string) : list request :=
  [ PostExperiment
      ("Restaurant_" +:+ fb_name (ec_behavior e) +:+ "_"
         +:+ show_nat (ec_groupSize e) +:+ "ppl")
      (description (scenarioText config) +:+ " | Gemini: " +:+ fb_name (ec_behavior e)
         +:+ " | Group size: " +:+ show_nat (ec_groupSize e))
      (count_or (chatDurationMinutes (scenarioText config)) 10);
    PostCohort experimentId
      (show_nat (ec_groupSize e + 1) +:+ " participants total (1 facilitator + "
         +:+ show_nat (ec_groupSize e + 1 - 1) +:+ " participants)")
      (ec_groupSize e + 1) (ec_groupSize e + 1);
    participant_request experimentId cohortId (facilitator_agent (ec_behavior e)) ]
  ++ (participant_request experimentId cohortId ∘ persona_agent
        <$> participantPersonas e).

(** Whether a request adds a participant other than the facilitator. *)
Definition adds_participant (q : request) : bool :=
  match q with
  | PostParticipant _ _ name _ _ _ _ => negb (bool_decide (name = Some "Gemini"))
  | _ => false
  end.

(** ** Checkpoint files *)

(** The end of [main]: the results and the dialogue are saved once more. *)
Definition save_results (env : environment) (outputPath : string)
    (results : list ExperimentResult) : list (string * content) :=
  let simpleDialoguePath := replace ".json" "_dialogues.txt" outputPath in
  [(outputPath, Json results);
   (simpleDialoguePath, Text (generateSimpleDialogue env results))].

(** What a file holds after a log of writes: each write replaces the file. *)
Fixpoint file_after (writes : list (string * content)) (path : string)
    : option content :=
  match writes with
  | [] => None
  | (p, c) :: writes =>
    match file_after writes path with
    | Some c' => Some c'
    | None => if String.eqb p path then Some c else None
    end
  end.

(** The number of writes that save the result list. *)
Fixpoint result_saves (writes : list (string * content)) : nat :=
  match writes with
  | [] => 0
  | (_, Json _) :: writes => S (result_saves writes)
  | (_, Text _) :: writes => result_saves writes
  end.

(** The two writes of a checkpoint over [results]. *)
Definition checkpoint_writes (env : environment) (config : BatchConfig)
    (results : list ExperimentResult) : list (string * content) :=
  [(show (outputPath config), Json results);
   (dialoguePath config, Text (generateSimpleDialogue env results))].

(** ** Rendered blocks *)

(** Whether the renderer shows a result: a success with a conversation. *)
Definition rendered (r : ExperimentResult) : bool :=
  match status r, conversations r with
  | success, Some (_ :: _) => true
  | _, _ => false
  end.

(** The lines of a shown result: header, experiment id, blank, one line per
    message of each conversation, two blanks. *)
Definition dialogue_block (env : environment) (r : ExperimentResult) : list string :=
  if rendered r then
    ["=== " +:+ toUpperCase (facilitatorBehavior r) +:+ " ("
       +:+ show_nat (groupSize r) +:+ " participants) ===";
     "Experiment ID: " +:+ show (experimentId r);
     ""]
    ++ (dialogue_line env
          <$> flat_map ce_messages (default [] (conversations r)))
    ++ [""; ""]
  else [].

(** [s.includes(pattern)] *)
Fixpoint occurs (pattern s : string) : bool :=
  if String.prefix pattern s then true
  else match s with
       | EmptyString => false
       | String _ s' => occurs pattern s'
       end.

(** * Concrete data *)

(** ** Poll traces *)

(** An export with [n] messages in one chat stage of [cohortId], and a trace
    that samples the given totals every [interval] milliseconds. *)
Definition blank_message : ChatMessage :=
  {| cm_id := "m"; cm_message := "hi"; cm_timestamp := None;
     cm_profile := None; cm_type := "chat"; cm_agentId := None |}.

Definition export_with (cohortId : string) (n : nat) : ExportData :=
  {| cohortMap :=
       Some [(cohortId, {| chatMap := Some [("chat", replicate n blank_message)] |})] |}.

Fixpoint ticks_from (at_ interval : Z) (cohortId : string) (totals : list nat)
    : list tick :=
  match totals with
  | [] => []
  | n :: totals =>
    {| now := at_; reply := Ok (export_with cohortId n) |}
      :: ticks_from (at_ + interval) interval cohortId totals
  end.

(** [3, 4, 3, 4, ...], [n] samples. *)
Definition oscillating (n : nat) : list nat :=
  (fun k => if Nat.even k then 3 else 4) <$> seq 0 n.

(** The guard that ends a twenty-minute wait. *)
Definition late_tick : tick := {| now := 1200000; reply := Rejected |}.

(** [0, 0, 3, ..., 3] with fifteen, and with sixteen, samples at 3, polled
    every five seconds, then the deadline. *)
Definition fifteen_threes : list tick :=
  ticks_from 0 5000 "c1" ([0; 0] ++ replicate 15 3) ++ [late_tick].

Definition sixteen_threes : list tick :=
  ticks_from 0 5000 "c1" ([0; 0] ++ replicate 16 3) ++ [late_tick].

(** ** Configurations *)

(** A configuration as [main] builds it: credentials, the default scenario
    title, a thirty-minute chat and a five-second poll; the flags vary. *)
Definition main_config (testMode waitForCompletion : bool)
    (behaviorFilter excludeBehavior : option string) (maxConcurrent : nat)
    (outputPath : option string) (scenarios : option (list Scenario))
    : BatchConfig :=
  {| apiKey := "k"; baseUrl := "u";
     scenarioText :=
       {| title := "Restaurant Decision"; description := "Restaurant Decision";
          chatDurationMinutes := Some 30 |};
     waitForCompletion := waitForCompletion;
     pollIntervalMs := Some 5000%Z;
     maxWaitTimeMs := None;
     testMode := testMode;
     behaviorFilter := behaviorFilter;
     excludeBehavior := excludeBehavior;
     maxConcurrent := Some maxConcurrent;
     outputPath := outputPath;
     scenarios := scenarios |}.

(** [--wait-for-completion]: the full design, 25 units in windows of 3. *)
Definition cli_config : BatchConfig :=
  main_config false true None None 3 (Some "./batch_results.json") None.

(** [--test]: one behaviour, one group size, nothing awaited or saved. *)
Definition test_config : BatchConfig :=
  main_config true false None None 3 None None.

(** A scenario that announces three participants and describes one. *)
Definition lopsided_scenario : Scenario :=
  {| scenario_type := "Decide on a restaurant";
     scenario := "Pick a place for dinner.";
     participants :=
       [{| sp_name := "Ana"; sp_description := "Wants sushi.";
           ocean := None; voice_card := None |}];
     participant_count := 3 |}.

Definition lopsided_config : BatchConfig :=
  main_config true false None None 3 None (Some [lopsided_scenario]).

(** Two behaviours left by the exclusion, two scenarios, one unit at a
    time: four units in four windows. *)
Definition couple : Scenario :=
  {| scenario_type := "Decide on a restaurant";
     scenario := "Pick a place for dinner.";
     participants :=
       [{| sp_name := "Ana"; sp_description := "Wants sushi.";
           ocean := None; voice_card := None |};
        {| sp_name := "Bo"; sp_description := "Wants pizza.";
           ocean := None; voice_card := None |}];
     participant_count := 2 |}.

Definition solo : Scenario :=
  {| scenario_type := "Plan a trip";
     scenario := "Agree on a destination.";
     participants :=
       [{| sp_name := "Cy"; sp_description := "Prefers the sea.";
           ocean := None; voice_card := None |}];
     participant_count := 1 |}.

Definition four_units_config : BatchConfig :=
  main_config false true None
    (Some "silent, short_responses ,clarifying_questions") 1
    (Some "./out.json") (Some [solo; couple]).

(** An output path without [.json], as [--output ./results] gives. *)
Definition extensionless_config : BatchConfig :=
  main_config true false None None 3 (Some "./results") None.



(** ** Environments *)

(** Experiment ids count the requests served so far.  The cohort request of
    the experiment named [Restaurant_silent_3ppl] is refused, the export of
    experiment [e21] is rejected, and every other request is served.  The
    promises of a window settle last to first, and every poll meets the
    deadline at once. *)
Definition demo_env : environment :=
  {| postExperiment := fun log q =>
       match q with
       | PostExperiment name _ _ =>
         if String.eqb name "Restaurant_silent_3ppl"
         then Ok ("bad", name)
         else Ok ("e" +:+ show_nat (length log), name)
       | _ => Rejected
       end;
     postCohort := fun log q =>
       match q with
       | PostCohort "bad" _ _ _ => NotOk 500 "no capacity"
       | PostCohort experimentId _ _ _ => Ok ("c-" +:+ experimentId)
       | _ => Rejected
       end;
     postParticipant := fun log q => Ok ("p" +:+ show_nat (length log));
     getExport := fun log q =>
       match q with
       | GetExport "e21" => Rejected
       | GetExport experimentId =>
         Ok {| cohortMap :=
                 Some [("c-" +:+ experimentId,
                        {| chatMap := Some [("chat", [blank_message; blank_message])] |})] |}
       | _ => Rejected
       end;
     completionOrder := fun i n => reverse (seq 0 n);
     pollClock := fun _ _ => (0%Z, [late_tick]);
     toLocaleTimeString := fun ms => "12:00:00" |}.

(** A server whose every experiment and cohort gets the id [N/A]. *)
Definition na_env : environment :=
  {| postExperiment := fun log q => Ok ("N/A", "Restaurant");
     postCohort := fun log q => Ok "N/A";
     postParticipant := fun log q => Ok "p";
     getExport := fun log q => Ok {| cohortMap := None |};
     completionOrder := fun i n => seq 0 n;
     pollClock := fun _ _ => (0%Z, [late_tick]);
     toLocaleTimeString := fun ms => "12:00:00" |}.

(** * The command line and the scenarios file ([main]) *)

(** [args.indexOf(flag)]; [None] stands for [-1]. *)
Fixpoint indexOf (args : list string) (flag : string) : option nat :=
  match args with
  | [] => None
  | a :: args => if String.eqb a flag then Some 0 else S <$> indexOf args flag
  end.

(** [getArg]: the argument that follows the first occurrence of the flag. *)
Definition getArg (args : list string) (flag : string) : option string :=
  match indexOf args flag with
  | Some index => args !! (index + 1)
  | None => None
  end.

Definition hasFlag (args : list string) (flag : string) : bool :=
  includes args flag.

(** [loadScenarios].  [readScenarios filePath] is what
    [JSON.parse(fs.readFileSync(filePath, 'utf-8'))] yields, [None] when
    either of the two throws; the [catch] then returns [[]]. *)
Definition loadScenarios (readScenarios : string → option (list Scenario))
    (filePath : string) : list Scenario :=
  match readScenarios filePath with
  | Some content => content
  | None => []
  end.

(** The part of [main] that loads and filters the scenarios: the value of
    [scenarios] after it, or the line sent to [console.error] before
    [process.exit(1)] (without the leading emoji). *)
Definition main_scenarios (readScenarios : string → option (list Scenario))
    (scenariosFile scenarioTypeFilter : option string)
    : string + list Scenario :=
  let scenarios := [] in
  if truthy scenariosFile then
    let scenarios := loadScenarios readScenarios (show scenariosFile) in
    let scenarios :=
      if truthy scenarioTypeFilter then
        filter (fun s =>
                  occurs (toLowerCase (show scenarioTypeFilter))
                         (toLowerCase (scenario_type s)) = true)
               scenarios
      else scenarios in
    match scenarios with
    | [] => inl "No scenarios found matching criteria"
    | _ => inr scenarios
    end
  else inr scenarios.

(** [scenarios.length > 0 ? scenarios : undefined], the field [scenarios] of
    the configuration [main] builds. *)
Definition config_scenarios (scenarios : list Scenario) : option (list Scenario) :=
  if 0 <? length scenarios then Some scenarios else None.

(** * More vocabulary *)

(** ** Polling *)

(** A tick that shows no message of the cohort: the fetch fails, or the
    export counts none. *)
Definition silent_tick (cohortId : string) (t : tick) : Prop :=
  match reply t with
  | Ok data => totalMessages data cohortId = 0
  | _ => True
  end.

(** [conversations.reduce((sum, c) => sum + c.messages.length, 0)], the
    count the results loop logs for a unit. *)
Definition exported_messages (conversations : list ConversationExport) : nat :=
  foldl (fun sum c => sum + length (ce_messages c)) 0 conversations.

(** ** Requests *)

Definition is_export (q : request) : bool :=
  match q with
  | GetExport _ => true
  | _ => false
  end.

(** The requests one unit can send: the experiment, the cohort, the
    facilitator and one per persona while provisioning, then the export. *)
Definition provisioning_budget (e : ExperimentConfig) : nat :=
  3 + length (participantPersonas e).

Definition request_budget (e : ExperimentConfig) : nat :=
  provisioning_budget e + 1.

(** The setup a unit leaves when its provisioning throws. *)
Definition failed_setup (e : ExperimentConfig) (message : string) : Setup :=
  {| setup_behavior := ec_behavior e; setup_groupSize := ec_groupSize e;
     setup_scenario := ec_scenario e;
     setup_experimentId := None; setup_cohortId := None;
     setup_error := Some message |}.

(** The experiment request of a spec. *)
Definition experiment_request (config : BatchConfig) (e : ExperimentConfig) : request :=
  PostExperiment
    ("Restaurant_" +:+ fb_name (ec_behavior e) +:+ "_"
       +:+ show_nat (ec_groupSize e) +:+ "ppl")
    (description (scenarioText config) +:+ " | Gemini: " +:+ fb_name (ec_behavior e)
       +:+ " | Group size: " +:+ show_nat (ec_groupSize e))
    (count_or (chatDurationMinutes (scenarioText config)) 10).

(** ** Strings *)

(** Every character of the text passes the test. *)
Fixpoint string_forall (P : ascii → bool) (s : string) : bool :=
  match s with
  | EmptyString => true
  | String c s => P c && string_forall P s
  end.

(** ** The two stages of the selection *)

(** [select_behaviors] up to the exclusion: the filter, or else the test
    mode, decides. *)
Definition included_behaviors (config : BatchConfig)
    : string + list FacilitatorBehavior :=
  if truthy (behaviorFilter config) then
    match filter (fun b => fb_name b = show (behaviorFilter config))
                 FACILITATOR_BEHAVIORS with
    | [] => inl ("Unknown behavior: " +:+ show (behaviorFilter config))
    | b :: filtered => inr (b :: filtered)
    end
  else inr (if testMode config then take 1 FACILITATOR_BEHAVIORS
            else FACILITATOR_BEHAVIORS).

(** The names [--exclude-behavior] lists. *)
Definition excludeList (config : BatchConfig) : list string :=
  trim <$> split_commas (show (excludeBehavior config)).

(** The exclusion, applied to the behaviours the first stage leaves. *)
Definition remaining_behaviors (config : BatchConfig)
    (behaviors : list FacilitatorBehavior) : string + list FacilitatorBehavior :=
  if truthy (excludeBehavior config) then
    match filter (fun b => includes (excludeList config) (fb_name b) = false)
                 behaviors with
    | [] => inl "All behaviors excluded"
    | b :: behaviors => inr (b :: behaviors)
    end
  else inr behaviors.

(** A text without a comma. *)
Definition no_comma (s : string) : bool :=
  string_forall (fun c => negb (Ascii.eqb c ","%char)) s.

(** ** Configurations that differ in the output path only *)


(** ** Environments that differ in the pollers' clocks only *)



(** ** Personas *)



(** * More concrete data *)


(** [--test --exclude-behavior silent]. *)
Definition test_without_silent : BatchConfig :=
  main_config true false None (Some "silent") 3 (Some "./batch_results.json") None.

(** [--exclude-behavior chatty,quiet]: no behaviour bears these names. *)
Definition exclude_unknown_config : BatchConfig :=
  main_config false false None (Some "chatty, quiet") 3 None None.

(** [--test] with a scenarios file of two scenarios. *)
Definition test_two_scenarios_config : BatchConfig :=
  main_config true false None None 3 None (Some [solo; couple]).

(** [--test --behavior explanatory]. *)
Definition test_explanatory_config : BatchConfig :=
  main_config true false (Some "explanatory") None 3 None None.

(** A server that cannot be reached, and pollers whose clocks never show a
    reading. *)
Definition unreachable_env : environment :=
  {| postExperiment := fun log q => Rejected;
     postCohort := fun log q => Rejected;
     postParticipant := fun log q => Rejected;
     getExport := fun log q => Rejected;
     completionOrder := fun i n => seq 0 n;
     pollClock := fun _ _ => (0%Z, []);
     toLocaleTimeString := fun ms => "12:00:00" |}.

(** A cohort the export does not know, polled every five seconds up to the
    deadline. *)
Definition unknown_cohort_ticks : list tick :=
  ticks_from 0 5000 "c1" (replicate 20 7) ++ [late_tick].


(** Scenarios as a file may hold them, and a file system with one file. *)
Definition dinner : Scenario :=
  {| scenario_type := "Decide on a Restaurant";
     scenario := "Pick a place for dinner.";
     participants :=
       [{| sp_name := "Ana Maria"; sp_description := "Wants sushi.";
           ocean := Some {| ocean_O := 9; ocean_C := 5; ocean_E := 2;
                            ocean_A := 6; ocean_N := 5 |};
           voice_card := None |};
        {| sp_name := "Bo-2"; sp_description := "Wants pizza.";
           ocean := Some {| ocean_O := 4; ocean_C := 5; ocean_E := 5;
                            ocean_A := 4; ocean_N := 6 |};
           voice_card := None |}];
     participant_count := 2 |}.

Definition one_file (readable : string) (content : list Scenario)
    : string → option (list Scenario) :=
  fun filePath => if String.eqb filePath readable then Some content else None.

(** Output paths with [.json] in them: the default, and one that has it
    before its end. *)
Definition backup_config : BatchConfig :=
  main_config true false None None 3 (Some "./results.json.bak") None.

(** * Properties *)

(** ** Completion poller *)

Section Poller.
Variables (maxWaitTime startTime : Z) (cohortId : string).

Local Abbreviation poll' := (poll maxWaitTime startTime cohortId).
Local Abbreviation samples' := (samples maxWaitTime startTime cohortId).

Lemma stable_run_short k l : length l < k → ¬ stable_run k l.
Proof.
  intros Hlen (i & c & _ & Hrun).
  destruct k as [|k]; [lia|].
  specialize (Hrun k ltac:(lia)).
  apply lookup_lt_Some in Hrun. lia.
Qed.

Lemma stable_run_app_l k pre l : stable_run k l → stable_run k (pre ++ l).
Proof.
  intros (i & c & Hc & Hrun). exists (length pre + i), c. split; [done|].
  intros j Hj. rewrite <- Nat.add_assoc, lookup_app_r by lia.
  replace (length pre + (i + j) - length pre) with (i + j) by lia. auto.
Qed.

(** A sample that differs from its predecessor, or is zero, starts the
    count afresh: no run spans it and what came before. *)
Lemma stable_run_restart n last total l :
  n < 16 → ¬ (0 < total ∧ total = last) →
  stable_run 16 (replicate n last ++ total :: l) ↔ stable_run 16 (total :: l).
Proof.
  intros Hn Hbreak. split; [|apply stable_run_app_l].
  intros (i & c & Hc & Hrun).
  destruct (decide (i < n)) as [Hi|Hi].
  - exfalso. apply Hbreak.
    pose proof (Hrun 0 ltac:(lia)) as H0.
    rewrite Nat.add_0_r, lookup_app_l in H0 by (rewrite length_replicate; lia).
    apply lookup_replicate in H0 as [-> _].
    pose proof (Hrun (n - i) ltac:(lia)) as H1.
    replace (i + (n - i)) with (length (replicate n last) + 0) in H1
      by (rewrite length_replicate; lia).
    rewrite lookup_app_r in H1 by lia.
    replace (_ + 0 - _) with 0 in H1 by lia. simpl in H1.
    injection H1 as ->. done.
  - exists (i - n), c. split; [done|]. intros j Hj.
    specialize (Hrun j Hj).
    rewrite lookup_app_r in Hrun by (rewrite length_replicate; lia).
    rewrite length_replicate in Hrun.
    by replace (i - n + j) with (i + j - n) by lia.
Qed.

(** The loop invariant: [stableCount] counts the samples that repeated the
    total before them, so [stableCount + 1] equal samples are on record. *)
Lemma poll_true_iff trace : ∀ last stable,
  stable < 15 →
  poll' last stable trace = Some true
  ↔ stable_run 16 (replicate (S stable) last ++ samples' trace).
Proof.
  induction trace as [|t trace IH]; intros last stable Hst; cbn [poll samples].
  - split; [done|]. intros H. exfalso. revert H. apply stable_run_short.
    rewrite length_app, length_replicate. simpl. lia.
  - destruct (now t - startTime <? maxWaitTime)%Z.
    2:{ split; [done|]. intros H. exfalso. revert H. apply stable_run_short.
        rewrite length_app, length_replicate. simpl. lia. }
    destruct (reply t) as [|st txt|data]; [by apply IH..|].
    set (total := totalMessages data cohortId).
    destruct ((0 <? total) && (total =? last)) eqn:Hc.
    + apply andb_true_iff in Hc as [H1 H2].
      apply Nat.ltb_lt in H1. apply Nat.eqb_eq in H2. subst last.
      destruct (Nat.leb_spec 15 (S stable)) as [Hge|Hlt].
      * split; [intros _|done]. exists 0, total. split; [done|].
        intros j Hj. simpl (0 + j).
        destruct (decide (j < S stable)) as [Hj'|Hj'].
        -- rewrite lookup_app_l by (rewrite length_replicate; lia).
           apply lookup_replicate. lia.
        -- rewrite lookup_app_r by (rewrite length_replicate; lia).
           rewrite length_replicate.
           by replace (j - S stable) with 0 by lia.
      * rewrite IH by lia.
        by rewrite (replicate_S_end (S stable)), <- app_assoc.
    + rewrite IH by lia. change (replicate 1 total ++ ?l) with (total :: l).
      symmetry. apply stable_run_restart; [lia|].
      intros [H1 H2]. apply Nat.ltb_lt in H1. apply Nat.eqb_eq in H2.
      by rewrite H1, H2 in Hc.
Qed.

Lemma poll_finishes trace last stable :
  deadline_reached maxWaitTime startTime trace →
  is_Some (poll' last stable trace).
Proof.
  intros (t & Hin & Hlate). revert last stable.
  induction trace as [|t' trace IH]; intros last stable; [by inversion Hin|].
  cbn [poll].
  destruct (Z.ltb_spec (now t' - startTime) maxWaitTime) as [Hlt|Hge]; [|eauto].
  assert (t ∈ trace) as Hin'.
  { apply elem_of_cons in Hin as [->|]; [lia|done]. }
  destruct (reply t'); [by apply IH..|].
  destruct (_ && _); [destruct (_ <=? _); [eauto|]|]; by apply IH.
Qed.

Lemma poll_false_deadline trace : ∀ last stable,
  poll' last stable trace = Some false →
  deadline_reached maxWaitTime startTime trace.
Proof.
  induction trace as [|t trace IH]; intros last stable; cbn [poll]; [done|].
  assert (∀ l s, poll' l s trace = Some false →
                 deadline_reached maxWaitTime startTime (t :: trace)) as Hrec.
  { intros l s H. destruct (IH _ _ H) as (t' & Hin & Hlate).
    exists t'. split; [by apply elem_of_cons; right|done]. }
  destruct (Z.ltb_spec (now t - startTime) maxWaitTime) as [Hlt|Hge].
  - destruct (reply t); [by apply Hrec..|].
    destruct (_ && _); [destruct (_ <=? _); [done|]|]; by apply Hrec.
  - intros _. exists t. split; [apply elem_of_cons; by left|done].
Qed.

(** A fetch that rejects, or a response that is not ok, leaves the loop
    state as it was: the run continues as if the tick had not happened. *)
Lemma poll_skips_failure pre t post :
  (now t - startTime < maxWaitTime)%Z →
  (∀ data, reply t ≠ Ok data) →
  ∀ last stable,
    poll' last stable (pre ++ t :: post) = poll' last stable (pre ++ post).
Proof.
  intros Hguard Hfail.
  induction pre as [|t' pre IH]; intros last stable; cbn [app poll].
  - apply Z.ltb_lt in Hguard. rewrite Hguard.
    destruct (reply t) as [| |data]; [done..|]. by destruct (Hfail data).
  - destruct (_ <? _)%Z; [|done].
    destruct (reply t'); [by apply IH..|].
    destruct (_ && _); [destruct (_ <=? _); [done|]|]; by apply IH.
Qed.
End Poller.

(** A run of positive totals cannot use the initial [lastMessageCount = 0]. *)
Lemma stable_run_initial l : stable_run 16 (0 :: l) ↔ stable_run 16 l.
Proof.
  split; [|apply (stable_run_app_l _ [0])].
  intros ([|i] & c & Hc & Hrun).
  - specialize (Hrun 0 ltac:(lia)). simpl in Hrun. injection Hrun as <-. lia.
  - exists i, c. split; [done|]. intros j Hj. apply (Hrun j Hj).
Qed.

Lemma samples_ticks_from maxWaitTime startTime cohortId interval totals : ∀ at_,
  (0 < interval)%Z →
  (at_ + interval * Z.of_nat (length totals) - startTime ≤ maxWaitTime)%Z →
  samples maxWaitTime startTime cohortId (ticks_from at_ interval cohortId totals)
  = totals.
Proof.
  induction totals as [|n totals IH]; intros at_ Hint Hfit; [done|].
  cbn [ticks_from samples now reply]. rewrite length_cons, Nat2Z.inj_succ in Hfit.
  destruct (Z.ltb_spec (at_ - startTime) maxWaitTime) as [_|Hge]; [|nia].
  f_equal.
  - unfold totalMessages, cohortData, export_with. simpl.
    rewrite String.eqb_refl. simpl. by rewrite length_replicate.
  - apply IH; [done|lia].
Qed.

Lemma oscillating_unstable n : ¬ stable_run 16 (oscillating n).
Proof.
  intros (i & c & Hc & Hrun).
  pose proof (Hrun 0 ltac:(lia)) as H0. pose proof (Hrun 1 ltac:(lia)) as H1.
  unfold oscillating in *. rewrite list_lookup_fmap in H0, H1.
  destruct (seq 0 n !! (i + 0)) as [a|] eqn:Ha; [|done].
  destruct (seq 0 n !! (i + 1)) as [b|] eqn:Hb; [|done].
  apply lookup_seq in Ha as [-> _]. apply lookup_seq in Hb as [-> _].
  simpl in *. replace (i + 1) with (S (i + 0)) in H1 by lia.
  rewrite Nat.even_succ, <- Nat.negb_even in H1.
  destruct (Nat.even (i + 0)); simpl in *; congruence.
Qed.

Lemma samples_app_late maxWaitTime startTime cohortId trace t rest :
  (maxWaitTime ≤ now t - startTime)%Z →
  samples maxWaitTime startTime cohortId (trace ++ t :: rest)
  = samples maxWaitTime startTime cohortId trace.
Proof.
  intros Hlate. induction trace as [|t' trace IH]; cbn [app samples].
  - by destruct (Z.ltb_spec (now t - startTime) maxWaitTime); [lia|].
  - destruct (_ <? _)%Z; [|done]. destruct (reply t'); by rewrite IH.
Qed.

Lemma wait_true_iff config startTime trace experimentId cohortId :
  waitForExperimentCompletion config startTime trace experimentId cohortId = Some true
  ↔ stable_run 16
      (samples (num_or (maxWaitTimeMs config) (20 * 60 * 1000)) startTime cohortId trace).
Proof.
  unfold waitForExperimentCompletion.
  rewrite poll_true_iff by lia. apply stable_run_initial.
Qed.

Lemma wait_false_iff config startTime trace experimentId cohortId :
  waitForExperimentCompletion config startTime trace experimentId cohortId = Some false
  ↔ deadline_reached (num_or (maxWaitTimeMs config) (20 * 60 * 1000)) startTime trace
    ∧ ¬ stable_run 16
          (samples (num_or (maxWaitTimeMs config) (20 * 60 * 1000)) startTime cohortId trace).
Proof.
  rewrite <- (wait_true_iff config startTime trace experimentId cohortId).
  unfold waitForExperimentCompletion. split.
  - intros H. split; [by eapply poll_false_deadline|]. by rewrite H.
  - intros [Hlate Hrun].
    destruct (poll_finishes _ _ cohortId trace 0 0 Hlate) as [[] Hb]; [|done].
    by destruct (Hrun Hb).
Qed.

(** C1, as the specification states it, fails: [0, 0] followed by fifteen
    samples at 3 shows fifteen consecutive samples with the same positive
    total, and the poller times out with [false]. *)
Lemma fifteen_equal_samples_time_out :
  stable_run 15 (samples 1200000 0 "c1" fifteen_threes)
  ∧ waitForExperimentCompletion cli_config 0 fifteen_threes "e1" "c1" = Some false.
Proof.
  split; [|by vm_compute].
  exists 2, 3. split; [lia|]. intros j Hj.
  do 15 (destruct j as [|j]; [by vm_compute|]). lia.
Qed.

(** C1 (amended).  The poller returns [true] exactly when, while its guard
    still holds, sixteen consecutive ok samples carry the same positive
    total (fifteen samples in a row each repeat the one before); it returns
    [false] exactly when a guard finds [maxWaitTime] exhausted before that.
    A rejected fetch or a response that is not ok is skipped without touching
    the counters, and the result is a boolean in every case.  [0, 0] and
    sixteen samples at 3 give [true]; [3, 4, 3, 4, ...] keeps the loop
    running until the deadline and then gives [false]. *)
Theorem poller_stability :
  (∀ config startTime trace experimentId cohortId,
     let maxWaitTime := num_or (maxWaitTimeMs config) (20 * 60 * 1000) in
     (waitForExperimentCompletion config startTime trace experimentId cohortId
        = Some true
      ↔ stable_run 16 (samples maxWaitTime startTime cohortId trace))
     ∧ (waitForExperimentCompletion config startTime trace experimentId cohortId
          = Some false
        ↔ deadline_reached maxWaitTime startTime trace
          ∧ ¬ stable_run 16 (samples maxWaitTime startTime cohortId trace))
     ∧ (deadline_reached maxWaitTime startTime trace →
        is_Some (waitForExperimentCompletion config startTime trace
                   experimentId cohortId)))
  ∧ (∀ config startTime pre t post experimentId cohortId,
       (now t - startTime < num_or (maxWaitTimeMs config) (20 * 60 * 1000))%Z →
       (∀ data, reply t ≠ Ok data) →
       waitForExperimentCompletion config startTime (pre ++ t :: post)
         experimentId cohortId
       = waitForExperimentCompletion config startTime (pre ++ post)
           experimentId cohortId)
  ∧ waitForExperimentCompletion cli_config 0 sixteen_threes "e1" "c1" = Some true
  ∧ (∀ n, n ≤ 240 →
       waitForExperimentCompletion cli_config 0
         (ticks_from 0 5000 "c1" (oscillating n)) "e1" "c1" = None
       ∧ waitForExperimentCompletion cli_config 0
           (ticks_from 0 5000 "c1" (oscillating n) ++ [late_tick]) "e1" "c1"
         = Some false).
Proof.
  split; [|split; [|split]].
  - intros config startTime trace experimentId cohortId maxWaitTime.
    split; [apply wait_true_iff|]. split; [apply wait_false_iff|].
    apply poll_finishes.
  - intros config startTime pre t post experimentId cohortId Hguard Hfail.
    by apply poll_skips_failure.
  - by vm_compute.
  - intros n Hn.
    assert (samples 1200000 0 "c1" (ticks_from 0 5000 "c1" (oscillating n))
            = oscillating n) as Hs.
    { apply samples_ticks_from; [lia|].
      unfold oscillating. rewrite length_fmap, length_seq. lia. }
    split.
    + destruct (waitForExperimentCompletion _ _ _ _ _) as [[]|] eqn:Hw; [| |done].
      * apply wait_true_iff in Hw. change (num_or _ _) with 1200000%Z in Hw.
        rewrite Hs in Hw. by destruct (oscillating_unstable n).
      * apply wait_false_iff in Hw as [(t & Hin & Hlate) _].
        change (num_or _ _) with 1200000%Z in Hlate. exfalso.
        assert (∀ l a, (0 ≤ a)%Z → (a + 5000 * Z.of_nat (length l) ≤ 1200000)%Z →
                  t ∈ ticks_from a 5000 "c1" l → False) as Hno.
        { clear -Hlate. induction l as [|x l IH]; intros a Ha Hfit Hin;
            cbn [ticks_from] in Hin; [by inversion Hin|].
          rewrite length_cons, Nat2Z.inj_succ in Hfit.
          apply elem_of_cons in Hin as [->|Hin]; [simpl in Hlate; lia|].
          apply (IH (a + 5000)%Z); [lia|lia|done]. }
        apply (Hno (oscillating n) 0%Z); [lia| |done].
        unfold oscillating. rewrite length_fmap, length_seq. lia.
    + apply wait_false_iff. change (num_or _ _) with 1200000%Z. split.
      * exists late_tick. split; [|simpl; lia].
        apply elem_of_app. right. by apply list_elem_of_singleton.
      * rewrite samples_app_late by (simpl; lia). rewrite Hs.
        apply oscillating_unstable.
Qed.

(** The hypotheses of [poller_stability] hold on a concrete trace: a
    rejected fetch between two samples is skipped. *)
Lemma poller_stability_witness :
  waitForExperimentCompletion cli_config 0
    (ticks_from 0 5000 "c1" [3]
       ++ {| now := 5000; reply := Rejected |}
       :: ticks_from 10000 5000 "c1" [3]) "e1" "c1"
  = waitForExperimentCompletion cli_config 0
      (ticks_from 0 5000 "c1" [3] ++ ticks_from 10000 5000 "c1" [3]) "e1" "c1".
Proof.
  apply (proj1 (proj2 poller_stability)); [by vm_compute|done].
Defined.

(** ** [Promise.all] *)

Section PromiseAll.
Context {T : Type}.
Implicit Types (tasks : list (list request → T * list request)).
Implicit Types (slots : list (option T)).

Lemma settle_spec tasks order : ∀ slots log,
  slots_sound tasks slots →
  length slots = length tasks →
  let out := settle order tasks slots log in
  slots_sound tasks out.1
  ∧ length out.1 = length tasks
  ∧ (∀ i, i ∈ order → i < length tasks → ∃ x, out.1 !! i = Some (Some x))
  ∧ (∀ i, i ∉ order → out.1 !! i = slots !! i).
Proof.
  induction order as [|i order IH]; intros slots log Hsound Hlen;
    cbv zeta; cbn [settle].
  - split_and!; [done..| |done]. intros i Hi. by apply elem_of_nil in Hi.
  - destruct (tasks !! i) as [task|] eqn:Htask.
    + destruct (task log) as [x log'] eqn:Hrun.
      destruct (IH (<[i:=Some x]> slots) log') as (Hs & Hl & Hfill & Hkeep).
      { intros j y Hj. destruct (decide (i = j)) as [<-|Hne].
        - rewrite list_lookup_insert_eq in Hj
            by (rewrite Hlen; by eapply lookup_lt_Some).
          injection Hj as <-. exists task, log. by rewrite Hrun.
        - rewrite list_lookup_insert_ne in Hj by done. by apply Hsound. }
      { by rewrite length_insert. }
      split_and!; [done..| |].
      * intros j Hj Hlt. destruct (decide (j ∈ order)) as [Hin|Hout]; [by apply Hfill|].
        apply elem_of_cons in Hj as [->|Hj]; [|done].
        rewrite Hkeep by done. exists x.
        apply list_lookup_insert_eq. by rewrite Hlen.
      * intros j Hj. apply not_elem_of_cons in Hj as [Hne Hj].
        rewrite Hkeep by done. by apply list_lookup_insert_ne.
    + destruct (IH slots log Hsound Hlen) as (Hs & Hl & Hfill & Hkeep).
      split_and!; [done..| |].
      * intros j Hj Hlt. apply elem_of_cons in Hj as [->|Hj]; [|by apply Hfill].
        apply lookup_lt_is_Some_2 in Hlt as [? Hlt]. congruence.
      * intros j Hj. apply not_elem_of_cons in Hj as [_ Hj]. by apply Hkeep.
Qed.

Lemma all_filled slots :
  (∀ i, i < length slots → ∃ x, slots !! i = Some (Some x)) →
  ∃ xs, slots = Some <$> xs.
Proof.
  induction slots as [|o slots IH]; intros Hfill; [by exists []|].
  destruct (Hfill 0 ltac:(simpl; lia)) as [x Hx]. simpl in Hx. injection Hx as ->.
  destruct IH as [xs ->].
  { intros i Hi. apply (Hfill (S i)). simpl. lia. }
  by exists (x :: xs).
Qed.

(** When every promise settles, whatever the order, [Promise.all] yields
    one value per task, in the order of the tasks. *)
Lemma promise_all_settles tasks order log :
  order ≡ₚ seq 0 (length tasks) →
  ∃ xs log', promise_all order tasks log = (Some xs, log')
    ∧ Forall2 (fun task x => ∃ l, x = (task l).1) tasks xs.
Proof.
  intros Hperm. unfold promise_all.
  pose proof (settle_spec tasks order (replicate (length tasks) None) log) as H.
  destruct (settle _ _ _ _) as [slots log']. simpl in H.
  destruct H as (Hsound & Hlen & Hfill & _).
  { intros i x Hi. by apply lookup_replicate in Hi as [? _]. }
  { apply length_replicate. }
  destruct (all_filled slots) as [xs ->].
  { intros i Hi. apply Hfill; [|lia]. rewrite Hperm. apply elem_of_seq. lia. }
  exists xs, log'. split.
  - f_equal. apply mapM_Some. rewrite length_fmap in Hlen. clear -xs.
    induction xs; constructor; done.
  - rewrite length_fmap in Hlen.
    apply Forall2_same_length_lookup_2; [done|].
    intros i task x Htask Hx.
    destruct (Hsound i x) as (task' & l & Htask' & ->).
    { by rewrite list_lookup_fmap, Hx. }
    exists l. congruence.
Qed.
End PromiseAll.

(** ** The window loop *)

Section Scheduler.
Variables (env : environment) (config : BatchConfig).

Local Abbreviation budget := (count_or (maxConcurrent config) 3).

Lemma budget_pos : 0 < budget.
Proof. unfold count_or. destruct (maxConcurrent config) as [[|k]|]; lia. Qed.

(** The results loop pushes one result per setup, in the order of the
    setups. *)
Lemma record_loop setups : ∀ rs0 log,
  ∃ rs log',
    foldl (fun '(results, log) setup =>
             let '(result, log) := record_setup env config setup log in
             (results ++ [result], log))
          (rs0, log) setups
    = (rs0 ++ rs, log')
    ∧ Forall2 (fun s r => ∃ l, r = (record_setup env config s l).1) setups rs.
Proof.
  induction setups as [|s setups IH]; intros rs0 log; cbn [foldl].
  - exists [], log. by rewrite app_nil_r.
  - destruct (record_setup env config s log) as [r log1] eqn:Hr.
    destruct (IH (rs0 ++ [r]) log1) as (rs & log' & -> & Hall).
    exists (r :: rs), log'. split; [by rewrite <- app_assoc|].
    constructor; [|done]. exists log. by rewrite Hr.
Qed.

Lemma window_spec all i st :
  promises_settle env config →
  ∃ rs log,
    window env config all i st
    = Some {| results := results st ++ rs; calls := log;
              writes := writes st ++ checkpoint env config (results st ++ rs);
              errors := errors st |}
    ∧ Forall2 (unit_result env config) (take budget (drop i all)) rs.
Proof.
  intros [Horder Hpoll]. unfold window.
  set (batch := take budget (drop i all)).
  destruct (promise_all_settles (provision env config <$> batch)
              (completionOrder env i (length batch)) (calls st))
    as (setups & log1 & -> & Hsetups).
  { by rewrite length_fmap. }
  cbn [mbind option_bind].
  set (successful := filter _ setups).
  match goal with
  | |- context [?polls ≫= _] => assert (is_Some polls) as [polled ->]
  end.
  { destruct (waitForCompletion config) eqn:Hwait; [|by eauto].
    destruct (0 <? length successful); [|by eauto].
    apply mapM_is_Some, Forall_forall. intros s _. by apply Hpoll. }
  cbn [mbind option_bind].
  destruct (record_loop setups (results st) log1) as (rs & log2 & -> & Hrs).
  exists rs, log2. split; [done|].
  apply Forall2_fmap_l in Hsetups.
  apply Forall2_same_length_lookup_2.
  { by rewrite (Forall2_length _ _ _ Hsetups), (Forall2_length _ _ _ Hrs). }
  intros k e r He Hr.
  destruct (Forall2_lookup_l _ _ _ _ _ Hsetups He) as (s & Hs & l1 & ->).
  destruct (Forall2_lookup_l _ _ _ _ _ Hrs Hs) as (r' & Hr' & l2 & ->).
  exists l1, l2. congruence.
Qed.

Lemma flat_map_seq_shift {X} (f : nat → list X) n : ∀ a,
  flat_map f (seq (S a) n) = flat_map (fun k => f (S k)) (seq a n).
Proof. induction n as [|n IH]; intros a; simpl; [done|]. by rewrite IH. Qed.

Lemma ceil_div_0 m : 0 < m → ceil_div 0 m = 0.
Proof. intros Hm. unfold ceil_div. apply Nat.div_small. lia. Qed.

Lemma ceil_div_step a m : 0 < m → 0 < a → ceil_div a m = S (ceil_div (a - m) m).
Proof.
  intros Hm Ha. unfold ceil_div.
  destruct (decide (m ≤ a)) as [Hle|Hgt].
  - replace (a + m - 1) with ((a - m + m - 1) + 1 * m) by lia.
    rewrite Nat.div_add by lia. lia.
  - replace (a - m) with 0 by lia.
    rewrite (Nat.div_small (0 + m - 1)) by lia.
    replace (a + m - 1) with ((a - 1) + 1 * m) by lia.
    rewrite Nat.div_add, Nat.div_small by lia. lia.
Qed.

Lemma windows_spec all : promises_settle env config → ∀ fuel i st,
  length all - i ≤ fuel →
  length (results st) = i `min` length all →
  ∃ rs log,
    windows env config all fuel i st
    = Some {| results := results st ++ rs; calls := log;
              writes := writes st
                          ++ checkpoints_from env config i (length all) (results st ++ rs);
              errors := errors st |}
    ∧ Forall2 (unit_result env config) (drop i all) rs.
Proof.
  intros Hsettle. pose proof budget_pos as Hm.
  induction fuel as [|fuel IH]; intros i st Hfuel Hlen; cbn [windows].
  - destruct (Nat.ltb_spec i (length all)) as [Hi|Hi]; [lia|].
    exists [], (calls st). rewrite drop_ge by done. split; [|constructor].
    unfold checkpoints_from. replace (length all - i) with 0 by lia.
    rewrite ceil_div_0 by done. simpl. rewrite !app_nil_r. by destruct st.
  - destruct (Nat.ltb_spec i (length all)) as [Hi|Hi].
    2:{ exists [], (calls st). rewrite drop_ge by done. split; [|constructor].
        unfold checkpoints_from. replace (length all - i) with 0 by lia.
        rewrite ceil_div_0 by done. simpl. rewrite !app_nil_r. by destruct st. }
    destruct (window_spec all i st Hsettle) as (rs1 & log1 & -> & Hrs1).
    cbn [mbind option_bind].
    pose proof (Forall2_length _ _ _ Hrs1) as Hlen1.
    rewrite length_take, length_drop in Hlen1.
    edestruct (IH (i + budget)) as (rs2 & log2 & -> & Hrs2).
    { lia. }
    { cbn [results]. rewrite length_app. lia. }
    cbn [results writes errors].
    exists (rs1 ++ rs2), log2. rewrite <- !app_assoc. split.
    + do 2 f_equal. f_equal. unfold checkpoints_from.
      rewrite (ceil_div_step (length all - i)) by lia.
      cbn [seq flat_map]. f_equal.
      * f_equal. rewrite Nat.mul_1_l, !app_assoc.
        destruct (decide (i + budget ≤ length all)) as [Hfit|Hover].
        -- rewrite take_app_length'; [done|]. rewrite length_app. lia.
        -- assert (rs2 = []) as ->.
           { rewrite drop_ge in Hrs2 by lia. by inversion Hrs2. }
           rewrite app_nil_r, take_ge; [done|]. rewrite length_app. lia.
      * replace (length all - (i + budget)) with (length all - i - budget) by lia.
        rewrite (flat_map_seq_shift _ _ 1). apply flat_map_ext. intros k. do 2 f_equal. lia.
    + rewrite <- (take_drop budget (drop i all)).
      apply Forall2_app; [done|]. by rewrite drop_drop.
Qed.

Lemma below_ceil_div k n m : 0 < m → k < ceil_div n m → k * m < n.
Proof.
  unfold ceil_div. intros Hm Hk.
  pose proof (Nat.Div0.mul_div_le (n + m - 1) m). nia.
Qed.

(** [after_windows] is the state of the very run: from it the loop goes on
    to the run's outcome. *)
Lemma after_windows_spec all : promises_settle env config →
  ∀ k, k ≤ ceil_div (length all) budget →
  ∃ st, after_windows env config all k = Some st
    ∧ length (results st) = (k * budget) `min` length all
    ∧ windows env config all (length all - k) (k * budget) st
      = windows env config all (length all) 0 empty_run.
Proof.
  intros Hsettle. pose proof budget_pos as Hm.
  induction k as [|k IH]; intros Hk; cbn [after_windows].
  - exists empty_run. split; [done|]. split; [done|]. by rewrite Nat.sub_0_r.
  - destruct IH as (st & -> & Hlen & Hrest); [lia|]. cbn [mbind option_bind].
    assert (k * budget < length all) as Hlt by (apply below_ceil_div; lia).
    destruct (window_spec all (k * budget) st Hsettle) as (rs & log & Hw & Hrs).
    rewrite Hw. eexists. split; [done|]. cbn [results].
    pose proof (Forall2_length _ _ _ Hrs) as Hlen1.
    rewrite length_take, length_drop in Hlen1.
    split; [rewrite length_app; lia|].
    rewrite <- Hrest.
    replace (length all - k) with (S (length all - S k)) by nia.
    cbn [windows]. destruct (Nat.ltb_spec (k * budget) (length all)); [|lia].
    rewrite Hw. cbn [mbind option_bind]. f_equal. lia.
Qed.

Lemma batch_spec : promises_settle env config →
  ∃ rs log errs,
    createBatchExperiments env config
    = Some {| results := rs; calls := log;
              writes := checkpoints_from env config 0
                          (length (enumerated config)) rs;
              errors := errs |}
    ∧ Forall2 (unit_result env config) (enumerated config) rs.
Proof.
  intros Hsettle. unfold createBatchExperiments, enumerated.
  destruct (select_behaviors config) as [message|behaviors].
  - exists [], [], [message]. split; [|constructor].
    unfold checkpoints_from. by rewrite ceil_div_0 by apply budget_pos.
  - set (all := allExperiments config behaviors).
    destruct (windows_spec all Hsettle (length all) 0 empty_run)
      as (rs & log & -> & Hrs); [lia|done|].
    by exists rs, log, [].
Qed.
End Scheduler.

(** ** The concrete environment *)

Lemma demo_env_settles config :
  maxWaitTimeMs config = None → promises_settle demo_env config.
Proof.
  intros Hwait. split.
  - intros i n. apply reverse_Permutation.
  - intros _ experimentId cohortId. unfold waitForExperimentCompletion.
    rewrite Hwait. by eexists.
Qed.

Lemma demo_env_ids l q name : postExperiment demo_env l q ≠ Ok ("N/A", name).
Proof.
  destruct q as [n d t| | |]; simpl; try done.
  destruct (String.eqb n "Restaurant_silent_3ppl"); intros [= H _]; discriminate H.
Qed.

(** ** Units *)

Section Units.
Variables (env : environment) (config : BatchConfig).

Local Abbreviation budget := (count_or (maxConcurrent config) 3).

Lemma provision_label e l :
  setup_behavior (provision env config e l).1 = ec_behavior e
  ∧ setup_groupSize (provision env config e l).1 = ec_groupSize e.
Proof.
  unfold provision.
  by destruct (provision_steps env config e l) as [[m|[eid cid]] l'].
Qed.

Lemma record_label s l :
  facilitatorBehavior (record_setup env config s l).1 = fb_name (setup_behavior s)
  ∧ groupSize (record_setup env config s l).1 = setup_groupSize s.
Proof.
  unfold record_setup. destruct (truthy (setup_error s)); [done|].
  by destruct (exportExperimentConversations _ _ _ _ _) as [[m|cs] l'].
Qed.

(** A result carries the behaviour name and the group size of its spec. *)
Lemma unit_result_label e r :
  unit_result env config e r →
  facilitatorBehavior r = fb_name (ec_behavior e) ∧ groupSize r = ec_groupSize e.
Proof.
  intros (l1 & l2 & ->).
  destruct (record_label (provision env config e l1).1 l2) as [-> ->].
  by destruct (provision_label e l1) as [-> ->].
Qed.

Lemma results_prefix all k st st' :
  promises_settle env config →
  k ≤ ceil_div (length all) budget →
  after_windows env config all k = Some st →
  windows env config all (length all) 0 empty_run = Some st' →
  length (results st') = length all
  ∧ results st = take (k * budget) (results st').
Proof.
  intros Hsettle Hk Hst Hst'.
  destruct (after_windows_spec env config all Hsettle k Hk)
    as (st0 & Hst0 & Hlen & Hrest).
  assert (st0 = st) as -> by congruence. clear Hst0.
  pose proof (budget_pos config) as Hm.
  destruct (windows_spec env config all Hsettle (length all - k) (k * budget) st)
    as (rs & log & Hw & Hrs); [nia|done|].
  rewrite Hrest, Hst' in Hw. injection Hw as ->. cbn [results].
  pose proof (Forall2_length _ _ _ Hrs) as Hlen2. rewrite length_drop in Hlen2.
  split; [rewrite length_app; lia|].
  destruct (decide (k * budget ≤ length all)) as [Hfit|Hover].
  - rewrite take_app_length'; [done|lia].
  - assert (rs = []) as ->.
    { apply length_zero_iff_nil. lia. }
    rewrite app_nil_r, take_ge; [done|lia].
Qed.
End Units.

(** The windows of a run leave its earlier results in place. *)
Lemma earlier_results_stay env config :
  promises_settle env config →
  ∃ st,
    createBatchExperiments env config = Some st
    ∧ ∀ k, k ≤ ceil_div (length (enumerated config))
                  (count_or (maxConcurrent config) 3) →
        ∃ st_k,
          after_windows env config (enumerated config) k = Some st_k
          ∧ results st_k
            = take (k * count_or (maxConcurrent config) 3) (results st).
Proof.
  intros Hsettle.
  destruct (batch_spec env config Hsettle) as (rs & log & errs & Hrun & Hrs).
  eexists. split; [exact Hrun|]. cbn [results].
  intros k Hk.
  destruct (after_windows_spec env config _ Hsettle k Hk) as (st_k & Hk' & Hlen & Hrest).
  exists st_k. split; [done|].
  unfold createBatchExperiments, enumerated in *.
  destruct (select_behaviors config) as [message|behaviors].
  - injection Hrun as <- _ _ _.
    destruct k; [|rewrite ceil_div_0 in Hk by apply budget_pos; lia].
    simpl in Hk'. by injection Hk' as <-.
  - by destruct (results_prefix env config _ k st_k _ Hsettle Hk Hk' Hrun).
Qed.

(** C2.  Whatever the remote answers, so whichever units fail, a run whose
    promises settle ends with one result per enumerated spec, the result at
    each position being that of the spec at the same position; and after [k]
    windows the list holds the results of the first [k * budget] specs (all
    of them once these run out), which the later windows leave in place. *)
Theorem one_result_per_spec env config :
  promises_settle env config →
  ∃ st,
    createBatchExperiments env config = Some st
    ∧ length (results st) = length (enumerated config)
    ∧ Forall2 (fun e r =>
                 facilitatorBehavior r = fb_name (ec_behavior e)
                 ∧ groupSize r = ec_groupSize e)
              (enumerated config) (results st)
    ∧ ∀ k, k ≤ ceil_div (length (enumerated config))
                  (count_or (maxConcurrent config) 3) →
        ∃ st_k,
          after_windows env config (enumerated config) k = Some st_k
          ∧ length (results st_k)
            = (k * count_or (maxConcurrent config) 3) `min` length (enumerated config)
          ∧ results st_k
            = take (k * count_or (maxConcurrent config) 3) (results st).
Proof.
  intros Hsettle.
  destruct (batch_spec env config Hsettle) as (rs & log & errs & Hrun & Hrs).
  eexists. split; [exact Hrun|]. cbn [results].
  split; [symmetry; by eapply Forall2_length|].
  split; [eapply Forall2_impl; [exact Hrs|]; apply unit_result_label|].
  intros k Hk.
  destruct (earlier_results_stay env config Hsettle) as (st & Hst & Hprefix).
  rewrite Hrun in Hst. injection Hst as <-. cbn [results] in Hprefix.
  destruct (Hprefix k Hk) as (st_k & Hafter & Hres).
  exists st_k. split; [done|]. split; [|done].
  rewrite Hres, length_take. rewrite <- (Forall2_length _ _ _ Hrs). lia.
Qed.

(** The concrete run settles, with one result for each of its 25 specs. *)
Lemma one_result_per_spec_witness :
  promises_settle demo_env cli_config
  ∧ ∃ st,
      createBatchExperiments demo_env cli_config = Some st
      ∧ length (results st) = length (enumerated cli_config)
      ∧ Forall2 (fun e r =>
                   facilitatorBehavior r = fb_name (ec_behavior e)
                   ∧ groupSize r = ec_groupSize e)
                (enumerated cli_config) (results st)
      ∧ ∀ k, k ≤ ceil_div (length (enumerated cli_config))
                    (count_or (maxConcurrent cli_config) 3) →
          ∃ st_k,
            after_windows demo_env cli_config (enumerated cli_config) k = Some st_k
            ∧ length (results st_k)
              = (k * count_or (maxConcurrent cli_config) 3)
                  `min` length (enumerated cli_config)
            ∧ results st_k
              = take (k * count_or (maxConcurrent cli_config) 3) (results st).
Proof.
  split; [by apply demo_env_settles|].
  apply (one_result_per_spec demo_env cli_config). by apply demo_env_settles.
Defined.

(** ** Enumeration order *)

Lemma foldl_push {X Y} (f : X → Y) xs : ∀ acc,
  foldl (fun acc x => acc ++ [f x]) acc xs = acc ++ (f <$> xs).
Proof.
  induction xs as [|x xs IH]; intros acc; simpl; [by rewrite app_nil_r|].
  by rewrite IH, <- app_assoc.
Qed.

Lemma foldl_push_nested {X Y Z} (f : X → Y → Z) (g : X → list Y) xs : ∀ acc,
  foldl (fun acc x => foldl (fun acc y => acc ++ [f x y]) acc (g x)) acc xs
  = acc ++ flat_map (fun x => f x <$> g x) xs.
Proof.
  induction xs as [|x xs IH]; intros acc; simpl; [by rewrite app_nil_r|].
  by rewrite foldl_push, IH, <- app_assoc.
Qed.

(** Behaviours are the outer loop, the axis the inner one. *)
Lemma allExperiments_nested config behaviors :
  allExperiments config behaviors
  = flat_map (fun b => spec_of b <$> axis config) behaviors.
Proof.
  unfold allExperiments, axis.
  destruct (scenarios config) as [[|s ss]|].
  - rewrite (foldl_push_nested
               (fun b g => {| ec_behavior := b; ec_groupSize := g; ec_scenario := None |})
               (fun _ => groupSizes config)).
    simpl app. apply flat_map_ext. intros b. by rewrite <- list_fmap_compose.
  - rewrite (foldl_push_nested
               (fun b s => {| ec_behavior := b; ec_groupSize := participant_count s;
                              ec_scenario := Some s |})
               (fun _ => s :: ss)).
    simpl app. apply flat_map_ext. intros b. by rewrite <- list_fmap_compose.
  - rewrite (foldl_push_nested
               (fun b g => {| ec_behavior := b; ec_groupSize := g; ec_scenario := None |})
               (fun _ => groupSizes config)).
    simpl app. apply flat_map_ext. intros b. by rewrite <- list_fmap_compose.
Qed.

Lemma lookup_blocks {X Y Z} (f : X → Y → Z) ys xs : ∀ i j x y,
  xs !! i = Some x → ys !! j = Some y →
  flat_map (fun x => f x <$> ys) xs !! (i * length ys + j) = Some (f x y).
Proof.
  induction xs as [|x0 xs IH]; intros i j x y Hx Hy; [done|].
  simpl. destruct i as [|i]; simpl in *.
  - injection Hx as ->. rewrite lookup_app_l.
    + by rewrite list_lookup_fmap, Hy.
    + rewrite length_fmap. by eapply lookup_lt_Some.
  - rewrite lookup_app_r; rewrite length_fmap; [|lia].
    replace (length ys + i * length ys + j - length ys) with (i * length ys + j) by lia.
    by apply IH.
Qed.

Lemma length_blocks {X Y Z} (f : X → Y → Z) ys xs :
  length (flat_map (fun x => f x <$> ys) xs) = length xs * length ys.
Proof.
  induction xs as [|x xs IH]; simpl; [done|].
  by rewrite length_app, length_fmap, IH.
Qed.

Lemma labels_of_results env config rs :
  Forall2 (unit_result env config) (enumerated config) rs →
  result_label <$> rs = spec_label <$> enumerated config.
Proof.
  generalize (enumerated config). intros all Hrs.
  induction Hrs as [|e r all rs Hr _ IH]; [done|].
  cbn [fmap list_fmap]. f_equal; [|done].
  destruct (unit_result_label env config e r Hr) as [H1 H2].
  unfold result_label, spec_label. by rewrite H1, H2.
Qed.

(** C4.  The enumeration runs over the behaviours outside and over the group
    sizes, or the scenarios, inside: the spec of behaviour [i] and axis point
    [j] sits at index [i * |axis| + j].  Whatever order the promises of each
    window settle in, the results come out in this very order, and they are
    in place window by window: after [k] windows the list carries the
    labels of the first [k * budget] specs. *)
Theorem results_follow_enumeration env config :
  (∀ behaviors i j b x,
     behaviors !! i = Some b → axis config !! j = Some x →
     allExperiments config behaviors !! (i * length (axis config) + j)
     = Some (spec_of b x))
  ∧ (∀ behaviors,
       length (allExperiments config behaviors)
       = length behaviors * length (axis config))
  ∧ (promises_settle env config →
     ∃ st,
       createBatchExperiments env config = Some st
       ∧ result_label <$> results st = spec_label <$> enumerated config
       ∧ ∀ k, k ≤ ceil_div (length (enumerated config))
                     (count_or (maxConcurrent config) 3) →
           ∃ st_k,
             after_windows env config (enumerated config) k = Some st_k
             ∧ result_label <$> results st_k
               = take (k * count_or (maxConcurrent config) 3)
                      (spec_label <$> enumerated config)).
Proof.
  split; [|split].
  - intros behaviors i j b x Hb Hx. rewrite allExperiments_nested.
    by apply (lookup_blocks spec_of).
  - intros behaviors. rewrite allExperiments_nested. apply (length_blocks spec_of).
  - intros Hsettle.
    destruct (batch_spec env config Hsettle) as (rs & log & errs & Hrun & Hrs).
    destruct (earlier_results_stay env config Hsettle) as (st & Hst & Hk).
    rewrite Hrun in Hst. injection Hst as <-. cbn [results] in Hk.
    eexists. split; [exact Hrun|]. cbn [results].
    pose proof (labels_of_results env config rs Hrs) as Hlabels.
    split; [done|]. intros k Hle.
    destruct (Hk k Hle) as (st_k & Hafter & Hres).
    exists st_k. split; [done|]. by rewrite Hres, fmap_take, Hlabels.
Qed.

(** With the promises of every window settling last to first, the four
    results still come out in enumeration order. *)
Lemma results_follow_enumeration_witness :
  promises_settle demo_env four_units_config
  ∧ ∃ st,
      createBatchExperiments demo_env four_units_config = Some st
      ∧ result_label <$> results st
        = [("direct_fast_consensus", 1); ("direct_fast_consensus", 2);
           ("explanatory", 1); ("explanatory", 2)].
Proof.
  split; [by apply demo_env_settles|].
  destruct (proj2 (proj2 (results_follow_enumeration demo_env four_units_config))
              (demo_env_settles four_units_config eq_refl))
    as (st & Hrun & Hlabels & _).
  exists st. split; [exact Hrun|]. rewrite Hlabels. by vm_compute.
Defined.

(** ** Provisioning failure and export failure *)

Section Outcomes.
Variables (env : environment) (config : BatchConfig).

Lemma explains_request {T} (endpoint : list request → request → fetched T) q what :
  explains (request_json endpoint q what).
Proof.
  intros l message l'. unfold request_json.
  destruct (endpoint l q); intros [= <- _]; reflexivity.
Qed.

Lemma explains_ret {T} (x : T) : explains (mret x).
Proof. by intros l message l'. Qed.

Lemma explains_bind {T U} (m : io T) (k : T → io U) :
  explains m → (∀ x, explains (k x)) → explains (m ≫= k).
Proof.
  intros Hm Hk l message l'. unfold mbind, io_bind.
  destruct (m l) as [[msg|x] l1] eqn:Hrun.
  - intros [= <- _]. by eapply Hm.
  - apply Hk.
Qed.

Lemma explains_for_each {T} (xs : list T) (f : T → io string) :
  (∀ x, explains (f x)) → explains (for_each xs f).
Proof.
  intros Hf. induction xs as [|x xs IH]; cbn [for_each].
  - apply explains_ret.
  - apply explains_bind; [apply Hf|]. by intros _.
Qed.

Lemma explains_provision e : explains (provision_steps env config e).
Proof.
  unfold provision_steps.
  apply explains_bind; [apply explains_request|]. intros experiment.
  apply explains_bind; [apply explains_request|]. intros cohortId.
  apply explains_bind; [apply explains_request|]. intros _.
  apply explains_bind; [|intros _; apply explains_ret].
  apply explains_for_each. intros persona. apply explains_request.
Qed.

(** What becomes of a unit, by the outcome of its provisioning: after a
    failure the results loop pushes the error result and sends nothing;
    after a success it sends the export request and pushes a success
    result, with no conversations when that request fails. *)
Lemma unit_cases e l1 l2 :
  match provision_steps env config e l1 with
  | (inl message, _) =>
    record_setup env config (provision env config e l1).1 l2
    = (error_result e message, l2)
  | (inr (experimentId, cohortId), _) =>
    record_setup env config (provision env config e l1).1 l2
    = (success_result e experimentId cohortId
         match getExport env l2 (GetExport experimentId) with
         | Ok data => conversations_in data (Some experimentId) (Some cohortId)
         | _ => []
         end,
       l2 ++ [GetExport experimentId])
  end.
Proof.
  pose proof (explains_provision e l1) as Hmsg.
  unfold provision. destruct (provision_steps env config e l1) as [[m|[eid cid]] l'].
  - unfold record_setup. cbn [fst setup_error]. by rewrite (Hmsg m l').
  - unfold record_setup, exportExperimentConversations, request_json. simpl.
    unfold mbind, io_bind. by destruct (getExport env l2 (GetExport eid)).
Qed.

Lemma bind_inr {T U} (m : io T) (k : T → io U) l y l' :
  (m ≫= k) l = (inr y, l') →
  ∃ x l1, m l = (inr x, l1) ∧ k x l1 = (inr y, l').
Proof.
  unfold mbind, io_bind. destruct (m l) as [[msg|x] l1]; [done|]. eauto.
Qed.

Lemma request_json_inr {T} (endpoint : list request → request → fetched T)
    q what l x l' :
  request_json endpoint q what l = (inr x, l') →
  endpoint l q = Ok x ∧ l' = l ++ [q].
Proof.
  unfold request_json. destruct (endpoint l q); [done..|]. by intros [= -> <-].
Qed.

(** The experiment id of a provisioned unit is one the server assigned. *)
Lemma provisioned_id e l experimentId cohortId l' :
  provision_steps env config e l = (inr (experimentId, cohortId), l') →
  ∃ q name, postExperiment env l q = Ok (experimentId, name).
Proof.
  unfold provision_steps. intros H.
  apply bind_inr in H as ([eid name] & l1 & Hexp & H).
  apply bind_inr in H as (cid & l2 & _ & H).
  apply bind_inr in H as (? & l3 & _ & H).
  apply bind_inr in H as (? & l4 & _ & H).
  injection H as <- _ _.
  apply request_json_inr in Hexp as [Hexp _]. eauto.
Qed.
End Outcomes.



(** C9, as stated, fails: when the server hands out [N/A] as the id of an
    experiment and of its cohort, the unit succeeds and its result carries
    these ids. *)
Lemma placeholder_ids_on_success :
  (fun st => (fun r => (experimentId r, cohortId r, status r)) <$> results st)
    <$> createBatchExperiments na_env test_config
  = Some [(Some "N/A", Some "N/A", success)].
Proof. by vm_compute. Qed.

(** C9 (amended).  An error result carries the placeholder ids, a message
    and no conversations field; a success result carries a conversations
    list and no error field.  So [status = error] implies that both ids are
    [N/A]; the converse holds when the server never assigns [N/A] as an
    experiment id. *)
Theorem result_shape env config :
  promises_settle env config →
  ∃ st,
    createBatchExperiments env config = Some st
    ∧ Forall
        (fun r =>
           (status r = failure →
            experimentId r = Some "N/A" ∧ cohortId r = Some "N/A"
            ∧ truthy (error r) = true ∧ conversations r = None)
           ∧ (status r = success →
              is_Some (conversations r) ∧ error r = None)
           ∧ ((∀ l q name, postExperiment env l q ≠ Ok ("N/A", name)) →
              experimentId r = Some "N/A" → cohortId r = Some "N/A" →
              status r = failure))
        (results st).
Proof.
  intros Hsettle.
  destruct (batch_spec env config Hsettle) as (rs & log & errs & Hrun & Hrs).
  eexists. split; [exact Hrun|]. cbn [results].
  apply Forall2_Forall_r with (P := fun e r => unit_result env config e r)
                              (l := enumerated config); [done|].
  apply Forall_forall. intros e _. clear.
  intros r (l1 & l2 & ->).
  pose proof (unit_cases env config e l1 l2) as Hcases.
  pose proof (explains_provision env config e l1) as Hmsg.
  destruct (provision_steps env config e l1) as [[message|[eid cid]] l'] eqn:Hsteps;
    rewrite Hcases; cbn [fst].
  - split_and!; [|done|done]. intros _. split_and!; [done..| |done].
    by eapply Hmsg.
  - split_and!; [done| |].
    + intros _. by split; [eexists|].
    + intros Hfresh [= ->] _. exfalso.
      destruct (provisioned_id env config e l1 _ _ _ Hsteps) as (q & name & Hq).
      by eapply Hfresh.
Qed.

(** The concrete run settles and its server never assigns [N/A]. *)
Lemma result_shape_witness :
  promises_settle demo_env cli_config
  ∧ (∀ l q name, postExperiment demo_env l q ≠ Ok ("N/A", name))
  ∧ ∃ st,
      createBatchExperiments demo_env cli_config = Some st
      ∧ Forall
          (fun r =>
             (status r = failure →
              experimentId r = Some "N/A" ∧ cohortId r = Some "N/A"
              ∧ truthy (error r) = true ∧ conversations r = None)
             ∧ (status r = success →
                is_Some (conversations r) ∧ error r = None)
             ∧ ((∀ l q name, postExperiment demo_env l q ≠ Ok ("N/A", name)) →
                experimentId r = Some "N/A" → cohortId r = Some "N/A" →
                status r = failure))
          (results st).
Proof.
  split; [by apply demo_env_settles|]. split; [apply demo_env_ids|].
  apply (result_shape demo_env cli_config). by apply demo_env_settles.
Defined.

(** The first five results of the concrete run: the second unit failed at
    its cohort, the fifth was provisioned and its export rejected. *)
Example demo_run_outcomes :
  (fun st =>
     (fun r => (status r, error r, length <$> conversations r)) <$> take 5 (results st))
    <$> createBatchExperiments demo_env cli_config
  = Some [(success, None, Some 1);
          (failure, Some "Failed to create cohort: 500 no capacity", None);
          (success, None, Some 1);
          (success, None, Some 1);
          (success, None, Some 0)].
Proof. by vm_compute. Qed.

(** ** The four steps of provisioning *)

Section Provisioning.
Variables (env : environment) (config : BatchConfig).

Lemma for_each_in_order experimentId cohortId personas : ∀ log,
  for_each personas
    (fun persona =>
       createParticipantAgent env config experimentId cohortId
         (persona_agent persona)) log
  = match send_in_order env log
            (participant_request experimentId cohortId ∘ persona_agent <$> personas)
    with
    | (None, log') => (inr tt, log')
    | (Some message, log') => (inl message, log')
    end.
Proof.
  induction personas as [|p personas IH]; intros log; [done|].
  cbn [for_each fmap list_fmap send_in_order compose].
  unfold mbind at 1, io_bind at 1, createParticipantAgent at 1, request_json at 1.
  change (refusal env log (participant_request experimentId cohortId (persona_agent p)))
    with (reply_error "create participant"
            (postParticipant env log
               (participant_request experimentId cohortId (persona_agent p)))).
  change (PostParticipant _ _ _ _ _ _ _)
    with (participant_request experimentId cohortId (persona_agent p)).
  destruct (postParticipant env log _) as [|status text|id]; [done..|].
  cbn [reply_error]. apply IH.
Qed.

(** A unit sends the requests of its plan in order, stops at the first
    that is refused, and throws that error; with every request served it
    returns the ids the plan was built on. *)
Lemma provision_in_order e log :
  ∃ experimentId cohortId,
    provision_steps env config e log
    = match send_in_order env log
              (provisioning_plan config e experimentId cohortId)
      with
      | (None, log') => (inr (experimentId, cohortId), log')
      | (Some message, log') => (inl message, log')
      end.
Proof.
  unfold provision_steps, provisioning_plan.
  cbn [app send_in_order refusal].
  unfold mbind at 1, io_bind at 1, createExperiment at 1, request_json at 1.
  destruct (postExperiment env log _) as [|status text|[eid name]];
    [by exists "", ""..|].
  cbn [reply_error fst].
  unfold mbind at 1, io_bind at 1, createCohort at 1, request_json at 1.
  destruct (postCohort env _ _) as [|status text|cid] eqn:Hcohort.
  1,2: exists eid, ""; by rewrite Hcohort.
  exists eid, cid. rewrite Hcohort. cbn [reply_error].
  unfold mbind at 1, io_bind at 1, createParticipantAgent at 1, request_json at 1.
  change (PostParticipant eid cid _ _ _ _ _)
    with (participant_request eid cid (facilitator_agent (ec_behavior e))).
  destruct (postParticipant env _ _) as [|status text|id] eqn:Hfac.
  1,2: unfold refusal, participant_request at 1; by rewrite Hfac.
  unfold refusal, participant_request at 1. rewrite Hfac.
  cbn [reply_error].
  unfold mbind at 1, io_bind at 1. rewrite for_each_in_order.
  by destruct (send_in_order _ _ _) as [[message|] log'].
Qed.
End Provisioning.

Lemma enumerated_personas config e :
  e ∈ enumerated config →
  match ec_scenario e with
  | None =>
    participantPersonas e = take (ec_groupSize e) basePersonas
    ∧ length (participantPersonas e) = ec_groupSize e
  | Some s =>
    participantPersonas e = scenarioToPersonas s
    ∧ length (participantPersonas e) = length (participants s)
    ∧ ec_groupSize e = participant_count s
  end.
Proof.
  unfold enumerated. destruct (select_behaviors config) as [|behaviors].
  { intros H. by apply elem_of_nil in H. }
  rewrite allExperiments_nested, list_elem_of_In, in_flat_map.
  intros (b & _ & Hin). apply list_elem_of_In, list_elem_of_fmap in Hin as (x & -> & Hx).
  assert (participantPersonas (spec_of b x)
          = match x.2 with
            | Some s => scenarioToPersonas s
            | None => generateParticipantPersonas x.1
            end) as Hp by done.
  unfold axis in Hx. cbn [spec_of ec_scenario ec_groupSize].
  assert (∀ g, g ∈ groupSizes config → length (take g basePersonas) = g) as Hsizes.
  { intros g Hg. unfold groupSizes in Hg.
    destruct (testMode config); repeat (apply elem_of_cons in Hg as [->|Hg]; [done|]);
      by apply elem_of_nil in Hg. }
  destruct (scenarios config) as [[|s ss]|].
  - apply list_elem_of_fmap in Hx as (g & -> & Hg). rewrite Hp. split; [done|].
    by apply Hsizes.
  - apply list_elem_of_fmap in Hx as (s' & -> & _). rewrite Hp. cbn [fst snd].
    split; [done|]. split; [|done]. unfold scenarioToPersonas. apply length_imap.
  - apply list_elem_of_fmap in Hx as (g & -> & Hg). rewrite Hp. split; [done|].
    by apply Hsizes.
Qed.

(** C6, as stated, fails in scenario mode: for a scenario that announces
    three participants and describes one, the group size is 3, the cohort is
    sized 4, and one participant agent is added besides the facilitator. *)
Lemma lopsided_unit_adds_one_participant :
  ec_groupSize <$> enumerated lopsided_config = [3]
  ∧ (fun st => calls st !! 1) <$> createBatchExperiments na_env lopsided_config
    = Some (Some (PostCohort "N/A"
                    "4 participants total (1 facilitator + 3 participants)" 4 4))
  ∧ (fun st => adds_participant <$> calls st)
      <$> createBatchExperiments na_env lopsided_config
    = Some [false; false; false; true; false].
Proof. split; [|split]; by vm_compute. Qed.

(** C6 (amended).  A unit sends the requests of its plan in order:
    experiment, cohort with both bounds at [groupSize + 1], facilitator,
    then one participant agent per persona; the first refused request ends
    the unit with its error and nothing further is sent.  The personas of an
    enumerated spec are the first [groupSize] generic ones in group-size
    mode, exactly [groupSize] of them; in scenario mode they are those of
    the scenario's participants, one each, while the group size is the
    scenario's announced participant count. *)
Theorem provisioning_steps_in_order env config :
  (∀ e log, ∃ experimentId cohortId,
     provision_steps env config e log
     = match send_in_order env log
               (provisioning_plan config e experimentId cohortId)
       with
       | (None, log') => (inr (experimentId, cohortId), log')
       | (Some message, log') => (inl message, log')
       end)
  ∧ (∀ e, e ∈ enumerated config →
       match ec_scenario e with
       | None =>
         participantPersonas e = take (ec_groupSize e) basePersonas
         ∧ length (participantPersonas e) = ec_groupSize e
       | Some s =>
         participantPersonas e = scenarioToPersonas s
         ∧ length (participantPersonas e) = length (participants s)
         ∧ ec_groupSize e = participant_count s
       end).
Proof.
  split; [apply provision_in_order|apply enumerated_personas].
Qed.

(** The one spec of the lopsided design: its personas are those of the
    scenario's participants. *)
Lemma provisioning_steps_in_order_witness :
  enumerated lopsided_config
  = [{| ec_behavior := {| fb_name := "silent"; fb_agentId := "gemini_silent";
                          fb_promptContext := "Your role: Stay mostly silent.";
                          fb_modelSettings := gemini 60 |};
        ec_groupSize := 3;
        ec_scenario := Some lopsided_scenario |}]
  ∧ ∀ e, e ∈ enumerated lopsided_config →
      match ec_scenario e with
      | None =>
        participantPersonas e = take (ec_groupSize e) basePersonas
        ∧ length (participantPersonas e) = ec_groupSize e
      | Some s =>
        participantPersonas e = scenarioToPersonas s
        ∧ length (participantPersonas e) = length (participants s)
        ∧ ec_groupSize e = participant_count s
      end.
Proof.
  split; [by vm_compute|].
  apply (proj2 (provisioning_steps_in_order demo_env lopsided_config)).
Defined.

(** ** Checkpoints *)

Lemma result_saves_app ws1 ws2 :
  result_saves (ws1 ++ ws2) = result_saves ws1 + result_saves ws2.
Proof.
  induction ws1 as [|[p [rs|t]] ws1 IH]; simpl; [done| |done]. by rewrite IH.
Qed.

Lemma result_saves_checkpoints {X} (f g : X → string) (j : X → list ExperimentResult)
    (t : X → string) xs :
  result_saves (flat_map (fun k => [(f k, Json (j k)); (g k, Text (t k))]) xs)
  = length xs.
Proof. induction xs as [|x xs IH]; simpl; [done|]. by rewrite IH. Qed.

Lemma length_pairs {X Y} (a b : X → Y) xs :
  length (flat_map (fun k => [a k; b k]) xs) = 2 * length xs.
Proof. induction xs as [|x xs IH]; simpl; [done|]. rewrite IH. lia. Qed.

Lemma checkpoints_when_saving env config n rs :
  truthy (outputPath config) = true →
  checkpoints_from env config 0 n rs
  = flat_map (fun k =>
                checkpoint_writes env config
                  (take (k * count_or (maxConcurrent config) 3) rs))
             (seq 1 (ceil_div n (count_or (maxConcurrent config) 3))).
Proof.
  intros Hout. unfold checkpoints_from, checkpoint. rewrite Hout, Nat.sub_0_r.
  by apply flat_map_ext.
Qed.

(** The writes of a run that saves its checkpoints. *)
Lemma saved_checkpoints env config :
  promises_settle env config →
  truthy (outputPath config) = true →
  ∃ st,
    createBatchExperiments env config = Some st
    ∧ writes st
      = flat_map (fun k =>
                    checkpoint_writes env config
                      (take (k * count_or (maxConcurrent config) 3) (results st)))
                 (seq 1 (ceil_div (length (enumerated config))
                                  (count_or (maxConcurrent config) 3)))
    ∧ length (results st) = length (enumerated config).
Proof.
  intros Hsettle Hout.
  destruct (batch_spec env config Hsettle) as (rs & log & errs & Hrun & Hrs).
  eexists. split; [exact Hrun|]. cbn [results writes].
  rewrite checkpoints_when_saving by done. split; [done|].
  symmetry. by eapply Forall2_length.
Qed.

(** C7.  With an output path configured, a run whose promises settle writes
    one checkpoint per window and nothing else: for each window [k] of the
    [ceil(specs / budget)] windows, in order, the result list as it stands
    after that window goes to the output path and its rendered dialogue to
    the dialogue path.  So the result list is saved exactly
    [ceil(specs / budget)] times. *)
Theorem one_checkpoint_per_window env config :
  promises_settle env config →
  truthy (outputPath config) = true →
  ∃ st,
    createBatchExperiments env config = Some st
    ∧ writes st
      = flat_map (fun k =>
                    checkpoint_writes env config
                      (take (k * count_or (maxConcurrent config) 3) (results st)))
                 (seq 1 (ceil_div (length (enumerated config))
                                  (count_or (maxConcurrent config) 3)))
    ∧ result_saves (writes st)
      = ceil_div (length (enumerated config)) (count_or (maxConcurrent config) 3)
    ∧ length (writes st)
      = 2 * ceil_div (length (enumerated config)) (count_or (maxConcurrent config) 3).
Proof.
  intros Hsettle Hout.
  destruct (saved_checkpoints env config Hsettle Hout)
    as (st & Hrun & Hwrites & _).
  exists st. split; [done|]. split; [done|]. rewrite Hwrites.
  unfold checkpoint_writes. split.
  - by rewrite result_saves_checkpoints, length_seq.
  - by rewrite length_pairs, length_seq.
Qed.

(** Four units, one at a time: four windows, and the result list saved four
    times. *)
Lemma one_checkpoint_per_window_witness :
  promises_settle demo_env four_units_config
  ∧ truthy (outputPath four_units_config) = true
  ∧ length (enumerated four_units_config) = 4
  ∧ count_or (maxConcurrent four_units_config) 3 = 1
  ∧ ∃ st,
      createBatchExperiments demo_env four_units_config = Some st
      ∧ writes st
        = flat_map (fun k =>
                      checkpoint_writes demo_env four_units_config
                        (take (k * 1) (results st)))
                   (seq 1 4)
      ∧ result_saves (writes st) = 4
      ∧ length (writes st) = 2 * 4.
Proof.
  split; [by apply demo_env_settles|]. do 3 (split; [by vm_compute|]).
  apply (one_checkpoint_per_window demo_env four_units_config);
    [by apply demo_env_settles|by vm_compute].
Defined.

(** ** The dialogue path *)

Lemma ceil_div_covers n m : 0 < m → n ≤ ceil_div n m * m.
Proof.
  intros Hm. unfold ceil_div.
  pose proof (Nat.div_mod_eq (n + m - 1) m).
  pose proof (Nat.mod_upper_bound (n + m - 1) m). nia.
Qed.

Lemma prefix_split p : ∀ s,
  String.prefix p s = true → ∃ post, s = p +:+ post.
Proof.
  induction p as [|a p IH]; intros [|b s]; simpl; try done.
  - intros _. by exists "".
  - intros _. by exists (String b s).
  - destruct (Ascii.ascii_dec a b) as [->|]; [|done].
    intros H. destruct (IH s H) as [post ->]. by exists post.
Qed.

(** A path without [.json] is its own dialogue path. *)
Lemma replace_absent pattern replacement : ∀ s,
  (∀ pre post, s ≠ pre +:+ pattern +:+ post) →
  replace pattern replacement s = s.
Proof.
  induction s as [|c s IH]; intros Habsent.
  - cbn [replace]. destruct (String.prefix pattern "") eqn:Hp; [|done].
    destruct (prefix_split _ _ Hp) as [post Hpost].
    by destruct (Habsent "" post).
  - cbn [replace]. destruct (String.prefix pattern (String c s)) eqn:Hp.
    + destruct (prefix_split _ _ Hp) as [post Hpost].
      by destruct (Habsent "" post).
    + f_equal. apply IH. intros pre post ->.
      by destruct (Habsent (String c pre) post).
Qed.

Lemma file_after_last ws p c :
  file_after (ws ++ [(p, c)]) p = Some c.
Proof.
  induction ws as [|[p' c'] ws IH]; simpl.
  - by rewrite String.eqb_refl.
  - by rewrite IH.
Qed.

(** C10.  When the configured output path has no [.json] in it, the
    dialogue path is the output path: each checkpoint writes the result
    list and then the dialogue text to that one file, as does the final save
    of [main], so after a run over at least one spec the file holds the
    dialogue and not the results. *)
Theorem dialogue_overwrites_results env config p :
  outputPath config = Some p → p ≠ "" →
  (∀ pre post, p ≠ pre +:+ ".json" +:+ post) →
  promises_settle env config →
  replace ".json" "_dialogues.txt" p = p
  ∧ dialoguePath config = p
  ∧ (∀ rs, save_results env p rs
           = [(p, Json rs); (p, Text (generateSimpleDialogue env rs))])
  ∧ ∃ st,
      createBatchExperiments env config = Some st
      ∧ writes st
        = flat_map (fun k =>
                      let saved :=
                        take (k * count_or (maxConcurrent config) 3) (results st) in
                      [(p, Json saved); (p, Text (generateSimpleDialogue env saved))])
                   (seq 1 (ceil_div (length (enumerated config))
                                    (count_or (maxConcurrent config) 3)))
      ∧ (enumerated config ≠ [] →
         file_after (writes st) p
         = Some (Text (generateSimpleDialogue env (results st)))).
Proof.
  intros Hout Hp Habsent Hsettle.
  pose proof (replace_absent ".json" "_dialogues.txt" p Habsent) as Hsame.
  assert (truthy (outputPath config) = true) as Htruthy.
  { rewrite Hout. simpl. by destruct (String.eqb_spec p ""). }
  assert (dialoguePath config = p) as Hpath.
  { unfold dialoguePath. rewrite Hout. cbn [fmap option_fmap option_map str_or].
    rewrite Hsame. by destruct (String.eqb_spec p ""). }
  split; [done|]. split; [done|]. split.
  { intros rs. unfold save_results. by rewrite Hsame. }
  destruct (saved_checkpoints env config Hsettle Htruthy)
    as (st & Hrun & Hwrites & Hlen).
  exists st. split; [done|].
  unfold checkpoint_writes in Hwrites. rewrite Hpath, Hout in Hwrites.
  split; [done|]. intros Hsome. rewrite Hwrites.
  set (W := ceil_div _ _) in *.
  pose proof (budget_pos config) as Hm.
  pose proof (ceil_div_covers (length (enumerated config)) _ Hm) as Hcover.
  fold W in Hcover.
  assert (0 < W) as HW.
  { destruct (enumerated config); [done|]. simpl in Hcover. lia. }
  replace W with (S (W - 1)) at 1 by lia. rewrite seq_S, flat_map_app.
  cbn [flat_map]. rewrite app_nil_r.
  change [?a; ?b] with ([a] ++ [b]). rewrite app_assoc, file_after_last.
  do 3 f_equal. apply take_ge. rewrite Hlen.
  by replace (1 + (W - 1)) with W by lia.
Qed.

Lemma prefix_append p : ∀ post, String.prefix p (p +:+ post) = true.
Proof.
  induction p as [|a p IH]; intros post.
  - by destruct post.
  - change (String a p +:+ post) with (String a (p +:+ post)). simpl.
    destruct (Ascii.ascii_dec a a); [apply IH|done].
Qed.

Lemma occurs_prefix pattern s :
  String.prefix pattern s = true → occurs pattern s = true.
Proof. intros H. destruct s; cbn [occurs]; by rewrite H. Qed.

Lemma occurs_append pattern post : ∀ pre,
  occurs pattern (pre +:+ pattern +:+ post) = true.
Proof.
  induction pre as [|c pre IH].
  - change ("" +:+ ?x) with x. apply occurs_prefix, prefix_append.
  - change (String c pre +:+ ?x) with (String c (pre +:+ x)). cbn [occurs].
    by destruct (String.prefix _ _).
Qed.

Lemma occurs_false_absent pattern s :
  occurs pattern s = false → ∀ pre post, s ≠ pre +:+ pattern +:+ post.
Proof. intros Hocc pre post ->. by rewrite occurs_append in Hocc. Qed.

(** With [--output ./results] the one file is written twice per checkpoint. *)
Lemma dialogue_overwrites_results_witness :
  outputPath extensionless_config = Some "./results"
  ∧ "./results" ≠ ""
  ∧ (∀ pre post, "./results" ≠ pre +:+ ".json" +:+ post)
  ∧ promises_settle demo_env extensionless_config
  ∧ replace ".json" "_dialogues.txt" "./results" = "./results"
  ∧ dialoguePath extensionless_config = "./results"
  ∧ (∀ rs, save_results demo_env "./results" rs
           = [("./results", Json rs);
              ("./results", Text (generateSimpleDialogue demo_env rs))])
  ∧ ∃ st,
      createBatchExperiments demo_env extensionless_config = Some st
      ∧ writes st
        = flat_map (fun k =>
                      let saved :=
                        take (k * count_or (maxConcurrent extensionless_config) 3)
                             (results st) in
                      [("./results", Json saved);
                       ("./results", Text (generateSimpleDialogue demo_env saved))])
                   (seq 1 (ceil_div (length (enumerated extensionless_config))
                                    (count_or (maxConcurrent extensionless_config) 3)))
      ∧ (enumerated extensionless_config ≠ [] →
         file_after (writes st) "./results"
         = Some (Text (generateSimpleDialogue demo_env (results st)))).
Proof.
  split; [done|]. split; [done|].
  split; [by apply occurs_false_absent|].
  split; [by apply demo_env_settles|].
  apply (dialogue_overwrites_results demo_env extensionless_config "./results");
    [done|done|by apply occurs_false_absent|by apply demo_env_settles].
Defined.

(** ** The early return *)

Lemma filter_none {X} (P : X → Prop) `{∀ x, Decision (P x)} (l : list X) :
  (∀ x, x ∈ l → ¬ P x) → filter P l = [].
Proof.
  induction l as [|x l IH]; intros HP; [done|].
  rewrite filter_cons_False by (apply HP; by left).
  apply IH. intros y Hy. apply HP. by right.
Qed.

Lemma early_return env config message :
  select_behaviors config = inl message →
  createBatchExperiments env config
  = Some {| results := []; calls := []; writes := []; errors := [message] |}.
Proof. unfold createBatchExperiments. by intros ->. Qed.




(** ** The dialogue renderer *)

Lemma fmap_flat_map {X Y Z} (f : Y → Z) (g : X → list Y) xs :
  flat_map (fun x => f <$> g x) xs = f <$> flat_map g xs.
Proof.
  induction xs as [|x xs IH]; simpl; [done|]. by rewrite fmap_app, IH.
Qed.


Lemma push_dialogue_block env lines r :
  push_dialogue env lines r = lines ++ dialogue_block env r.
Proof.
  unfold push_dialogue, dialogue_block, rendered.
  destruct (status r); [|by rewrite app_nil_r].
  destruct (conversations r) as [[|c cs]|]; [by rewrite app_nil_r| |by rewrite app_nil_r].
  rewrite (foldl_push_nested (fun _ msg => dialogue_line env msg) ce_messages).
  rewrite fmap_flat_map. cbn [default from_option id].
  by rewrite <- !app_assoc.
Qed.

Lemma dialogue_lines env rs : ∀ lines,
  foldl (push_dialogue env) lines rs = lines ++ flat_map (dialogue_block env) rs.
Proof.
  induction rs as [|r rs IH]; intros lines; simpl; [by rewrite app_nil_r|].
  by rewrite IH, push_dialogue_block, <- app_assoc.
Qed.




(** * Further properties *)

(** ** The poller without messages *)

Lemma silent_samples maxWaitTime startTime cohortId trace :
  Forall (silent_tick cohortId) trace →
  Forall (fun total => total = 0) (samples maxWaitTime startTime cohortId trace).
Proof.
  induction 1 as [|t trace Ht _ IH]; cbn [samples]; [constructor|].
  destruct (_ <? _)%Z; [|constructor].
  unfold silent_tick in Ht. destruct (reply t); [done..|]. by constructor.
Qed.

Lemma stable_run_positive k l :
  0 < k → stable_run k l → ∃ c, 0 < c ∧ c ∈ l.
Proof.
  intros Hk (i & c & Hc & Hrun). exists c. split; [done|].
  eapply list_elem_of_lookup_2, (Hrun 0 Hk).
Qed.

(** X1.  A poller that never sees a message of its cohort never reports
    completion: when every fetch fails, or every export counts no message
    for the cohort (as for a cohort id the export does not know), the answer
    is not [true]; and it is [false] once a guard finds the wait
    exhausted. *)
Theorem poller_needs_messages config startTime trace experimentId cohortId :
  Forall (silent_tick cohortId) trace →
  waitForExperimentCompletion config startTime trace experimentId cohortId
  ≠ Some true
  ∧ (deadline_reached (num_or (maxWaitTimeMs config) (20 * 60 * 1000))
       startTime trace →
     waitForExperimentCompletion config startTime trace experimentId cohortId
     = Some false).
Proof.
  intros Hsilent.
  assert (¬ stable_run 16
            (samples (num_or (maxWaitTimeMs config) (20 * 60 * 1000))
               startTime cohortId trace)) as Hrun.
  { intros Hrun. apply stable_run_positive in Hrun as (c & Hc & Hin); [|lia].
    eapply Forall_forall in Hin; [|by apply silent_samples]. simpl in Hin. lia. }
  split.
  - by rewrite wait_true_iff.
  - intros Hlate. by apply wait_false_iff.
Qed.

Lemma unknown_cohort_silent :
  Forall (silent_tick "c2") unknown_cohort_ticks.
Proof.
  unfold unknown_cohort_ticks.
  vm_compute. repeat constructor.
Qed.

(** Twenty polls of exports that hold seven messages of another cohort,
    then the deadline. *)
Lemma poller_needs_messages_witness :
  Forall (silent_tick "c2") unknown_cohort_ticks
  ∧ waitForExperimentCompletion cli_config 0 unknown_cohort_ticks "e1" "c2"
    = Some false.
Proof.
  split; [exact unknown_cohort_silent|].
  apply (poller_needs_messages cli_config 0 unknown_cohort_ticks "e1" "c2").
  - exact unknown_cohort_silent.
  - exists late_tick. split; [|vm_compute; discriminate].
    unfold unknown_cohort_ticks. apply elem_of_app. right. apply list_elem_of_singleton.
    reflexivity.
Defined.

(** ** The poller's answer is final *)

Lemma poll_app maxWaitTime startTime cohortId trace more answer : ∀ last stable,
  poll maxWaitTime startTime cohortId last stable trace = Some answer →
  poll maxWaitTime startTime cohortId last stable (trace ++ more) = Some answer.
Proof.
  induction trace as [|t trace IH]; intros last stable; cbn [app poll]; [done|].
  destruct (_ <? _)%Z; [|done].
  destruct (reply t); [by apply IH..|].
  destruct (_ && _); [destruct (_ <=? _); [done|]|]; by apply IH.
Qed.

Lemma samples_length maxWaitTime startTime cohortId trace :
  length (samples maxWaitTime startTime cohortId trace) ≤ length trace.
Proof.
  induction trace as [|t trace IH]; cbn [samples]; [done|].
  destruct (_ <? _)%Z; [|simpl; lia]. destruct (reply t); simpl; lia.
Qed.

Lemma stable_run_length k l : stable_run k l → k ≤ length l.
Proof.
  intros Hrun. destruct (decide (k ≤ length l)) as [|Hlt]; [done|].
  destruct (stable_run_short k l); [lia|done].
Qed.

(** X2.  Once the poller has answered, what the server or the clock do
    afterwards cannot change the answer: the answer on a trace is the answer
    on every extension of it.  The answer [true] takes at least sixteen
    iterations of the loop. *)
Theorem poller_answer_is_final config startTime trace experimentId cohortId answer :
  waitForExperimentCompletion config startTime trace experimentId cohortId
  = Some answer →
  (∀ more,
     waitForExperimentCompletion config startTime (trace ++ more)
       experimentId cohortId
     = Some answer)
  ∧ (answer = true → 16 ≤ length trace).
Proof.
  intros Hanswer. split.
  - intros more. by apply poll_app.
  - intros ->. apply wait_true_iff, stable_run_length in Hanswer.
    etrans; [exact Hanswer|]. apply samples_length.
Qed.

(** The sixteen samples at 3 give [true], whatever follows. *)
Lemma poller_answer_is_final_witness :
  waitForExperimentCompletion cli_config 0 sixteen_threes "e1" "c1" = Some true
  ∧ ∀ more,
      waitForExperimentCompletion cli_config 0 (sixteen_threes ++ more) "e1" "c1"
      = Some true.
Proof.
  split; [reflexivity|].
  apply (poller_answer_is_final cli_config 0 sixteen_threes "e1" "c1" true).
  reflexivity.
Defined.

(** ** The exporter *)

Lemma foldl_sum_fmap {X Y} (f : X → Y) (g : Y → nat) (h : X → nat) xs :
  (∀ x, g (f x) = h x) →
  ∀ acc, foldl (fun sum y => sum + g y) acc (f <$> xs)
         = foldl (fun sum x => sum + h x) acc xs.
Proof.
  intros Hgh. induction xs as [|x xs IH]; intros acc; simpl; [done|].
  by rewrite Hgh, IH.
Qed.

(** X3.  The exporter and the poller count alike: the messages of the
    conversations exported for a cohort are as many as the total the poller
    reads off the same export for that cohort. *)
Theorem exported_messages_match_poll data experimentId cohortId :
  exported_messages (conversations_in data experimentId (Some cohortId))
  = totalMessages data cohortId.
Proof.
  unfold exported_messages, conversations_in, totalMessages.
  change (show (Some cohortId)) with cohortId.
  destruct (cohortData data cohortId ≫= chatMap) as [stages|]; [|reflexivity].
  cbn [default]. apply foldl_sum_fmap. intros stage. cbn [ce_messages].
  apply length_fmap.
Qed.



(** ** The selection of behaviours *)

Lemma select_behaviors_stages config :
  select_behaviors config
  = match included_behaviors config with
    | inl message => inl message
    | inr behaviors => remaining_behaviors config behaviors
    end.
Proof.
  unfold select_behaviors, included_behaviors, remaining_behaviors, excludeList.
  cbv zeta.
  destruct (truthy (behaviorFilter config)).
  - destruct (filter _ FACILITATOR_BEHAVIORS) as [|b filtered]; [done|].
    destruct (truthy (excludeBehavior config)); [|done].
    by destruct (filter _ (b :: filtered)).
  - destruct (truthy (excludeBehavior config)); [|done].
    by destruct (filter _ _).
Qed.

Lemma included_spec config behaviors :
  included_behaviors config = inr behaviors →
  behaviors ≠ []
  ∧ behaviors `sublist_of` FACILITATOR_BEHAVIORS
  ∧ (truthy (behaviorFilter config) = true →
     Forall (fun b => fb_name b = show (behaviorFilter config)) behaviors)
  ∧ (truthy (behaviorFilter config) = false →
     behaviors = if testMode config then take 1 FACILITATOR_BEHAVIORS
                 else FACILITATOR_BEHAVIORS).
Proof.
  unfold included_behaviors.
  destruct (truthy (behaviorFilter config)).
  - destruct (filter _ FACILITATOR_BEHAVIORS) as [|b filtered] eqn:Hf; [done|].
    intros [= <-]. split_and!; [done| | |done].
    + rewrite <- Hf. apply sublist_filter.
    + intros _. rewrite <- Hf. apply Forall_forall. intros b' Hb'.
      by apply list_elem_of_filter in Hb' as [? _].
  - intros [= <-]. split_and!; [| |done|done].
    + by destruct (testMode config).
    + destruct (testMode config); [|done].
      apply (sublist_take FACILITATOR_BEHAVIORS 1).
Qed.

Lemma remaining_spec config behaviors result :
  remaining_behaviors config behaviors = inr result →
  behaviors ≠ [] →
  result ≠ []
  ∧ result `sublist_of` behaviors
  ∧ (truthy (excludeBehavior config) = true →
     result = filter (fun b => includes (excludeList config) (fb_name b) = false)
                     behaviors)
  ∧ (truthy (excludeBehavior config) = false → result = behaviors).
Proof.
  unfold remaining_behaviors.
  destruct (truthy (excludeBehavior config)).
  - destruct (filter _ behaviors) as [|b kept] eqn:Hf; [done|].
    intros [= <-] _. split_and!; [done| |done|done].
    rewrite <- Hf. apply sublist_filter.
  - by intros [= <-] ?.
Qed.

Lemma filter_all {X} (P : X → Prop) `{∀ x, Decision (P x)} (l : list X) :
  Forall P l → filter P l = l.
Proof.
  induction l as [|x l IH]; intros HP; [done|].
  apply Forall_cons in HP as [Hx HP].
  rewrite filter_cons_True by done. f_equal. by apply IH.
Qed.

Lemma behavior_names_distinct : NoDup (fb_name <$> FACILITATOR_BEHAVIORS).
Proof. apply (bool_decide_unpack _). by vm_compute. Qed.

Lemma select_behaviors_inr config behaviors :
  select_behaviors config = inr behaviors →
  behaviors ≠ []
  ∧ behaviors `sublist_of` FACILITATOR_BEHAVIORS
  ∧ (truthy (behaviorFilter config) = true →
     Forall (fun b => fb_name b = show (behaviorFilter config)) behaviors)
  ∧ (truthy (excludeBehavior config) = true →
     Forall (fun b => includes (excludeList config) (fb_name b) = false) behaviors).
Proof.
  rewrite select_behaviors_stages.
  destruct (included_behaviors config) as [|included] eqn:Hincl; [done|].
  intros Hrem.
  apply included_spec in Hincl as (Hne & Hsub & Hnamed & Htest).
  apply remaining_spec in Hrem as (Hne' & Hsub' & Hexcl & Hkeep); [|done].
  split_and!; [done|by etrans| |].
  - intros Hfilter. apply Forall_forall. intros b Hb.
    eapply (proj1 (Forall_forall _ _) (Hnamed Hfilter)), elem_of_sublist; done.
  - intros Hex. rewrite (Hexcl Hex). apply Forall_forall. intros b Hb.
    by apply list_elem_of_filter in Hb as [? _].
Qed.

(** X5.  Whatever the flags, a selection that does not end the run early
    is never empty, keeps the behaviours in the order of
    [FACILITATOR_BEHAVIORS] without repeating any, holds only behaviours
    with the filter's name when a filter is given and none that the
    exclusion list names; and in test mode without a filter it is the first
    behaviour alone. *)
Theorem selected_behaviors config behaviors :
  select_behaviors config = inr behaviors →
  behaviors ≠ []
  ∧ behaviors `sublist_of` FACILITATOR_BEHAVIORS
  ∧ NoDup (fb_name <$> behaviors)
  ∧ (truthy (behaviorFilter config) = true →
     Forall (fun b => fb_name b = show (behaviorFilter config)) behaviors)
  ∧ (truthy (excludeBehavior config) = true →
     Forall (fun b => includes (excludeList config) (fb_name b) = false) behaviors)
  ∧ (truthy (behaviorFilter config) = false → testMode config = true →
     behaviors = take 1 FACILITATOR_BEHAVIORS).
Proof.
  intros Hsel.
  destruct (select_behaviors_inr config behaviors Hsel)
    as (Hne & Hsub & Hnamed & Hexcl).
  split_and!; [done|done| |done|done|].
  - pose proof behavior_names_distinct as Hdup.
    eapply sublist_NoDup in Hdup; [exact Hdup|]. by apply fmap_sublist.
  - intros Hfilter Hmode. rewrite select_behaviors_stages in Hsel.
    unfold included_behaviors in Hsel. rewrite Hfilter, Hmode in Hsel.
    apply remaining_spec in Hsel as (_ & Hfirst & _); [|done].
    apply sublist_length in Hfirst as Hlen.
    change (length (take 1 FACILITATOR_BEHAVIORS)) with 1 in Hlen.
    cbn [take FACILITATOR_BEHAVIORS] in Hfirst.
    destruct behaviors as [|b [|b' behaviors]]; [done| |cbn [length] in Hlen; lia].
    apply sublist_cons_r in Hfirst as [Hnil|(l' & [= -> <-] & _)].
    + by apply sublist_nil_r in Hnil.
    + reflexivity.
Qed.

(** The full run on the command line's defaults selects all five. *)
Lemma selected_behaviors_witness :
  select_behaviors cli_config = inr FACILITATOR_BEHAVIORS
  ∧ NoDup (fb_name <$> FACILITATOR_BEHAVIORS).
Proof.
  split; [reflexivity|].
  apply (selected_behaviors cli_config FACILITATOR_BEHAVIORS). reflexivity.
Defined.

(** X6.  A behaviour filter that names a behaviour selects exactly that
    one, in test mode as well: with a filter, [--test] does not fall back
    to the first behaviour. *)
Theorem behavior_filter_selects_one config b :
  b ∈ FACILITATOR_BEHAVIORS →
  behaviorFilter config = Some (fb_name b) →
  truthy (excludeBehavior config) = false →
  select_behaviors config = inr [b].
Proof.
  intros Hb Hfilter Hexcl.
  rewrite select_behaviors_stages.
  unfold included_behaviors, remaining_behaviors. rewrite Hfilter, Hexcl.
  unfold FACILITATOR_BEHAVIORS in Hb.
  repeat (apply elem_of_cons in Hb as [->|Hb]); [by vm_compute..|].
  by apply elem_of_nil in Hb.
Qed.

(** [--test --behavior explanatory] runs the fifth behaviour. *)
Lemma behavior_filter_selects_one_witness :
  ∃ b, FACILITATOR_BEHAVIORS !! 4 = Some b
       ∧ fb_name b = "explanatory"
       ∧ testMode test_explanatory_config = true
       ∧ select_behaviors test_explanatory_config = inr [b].
Proof.
  eexists. split; [reflexivity|]. split; [reflexivity|]. split; [reflexivity|].
  apply (behavior_filter_selects_one test_explanatory_config).
  - unfold FACILITATOR_BEHAVIORS. do 4 (apply elem_of_cons; right).
    apply elem_of_cons. by left.
  - reflexivity.
  - reflexivity.
Defined.

(** X7.  Names in the exclusion list that no behaviour bears are ignored
    without an error: the selection is that of the same flags without the
    exclusion. *)
Theorem unknown_exclusions_ignored c1 c2 :
  testMode c1 = testMode c2 →
  behaviorFilter c1 = behaviorFilter c2 →
  truthy (excludeBehavior c1) = true →
  truthy (excludeBehavior c2) = false →
  (∀ b, b ∈ FACILITATOR_BEHAVIORS → includes (excludeList c1) (fb_name b) = false) →
  select_behaviors c1 = select_behaviors c2.
Proof.
  intros Hmode Hfilter Hex1 Hex2 Hunknown.
  rewrite !select_behaviors_stages.
  assert (included_behaviors c1 = included_behaviors c2) as ->.
  { unfold included_behaviors. by rewrite Hmode, Hfilter. }
  destruct (included_behaviors c2) as [|behaviors] eqn:Hincl; [done|].
  apply included_spec in Hincl as (Hne & Hsub & _).
  unfold remaining_behaviors. rewrite Hex1, Hex2.
  rewrite filter_all; [by destruct behaviors|].
  apply Forall_forall. intros b Hb. apply Hunknown. by eapply elem_of_sublist.
Qed.

(** [--exclude-behavior "chatty, quiet"] runs all five behaviours, as the
    bare command line does. *)
Lemma unknown_exclusions_ignored_witness :
  excludeList exclude_unknown_config = ["chatty"; "quiet"]
  ∧ select_behaviors exclude_unknown_config = inr FACILITATOR_BEHAVIORS.
Proof.
  split; [reflexivity|].
  rewrite (unknown_exclusions_ignored exclude_unknown_config
             (main_config false false None None 3 None None));
    [reflexivity..|].
  intros b Hb. unfold FACILITATOR_BEHAVIORS in Hb.
  repeat (apply elem_of_cons in Hb as [->|Hb]); [reflexivity..|].
  by apply elem_of_nil in Hb.
Defined.

(** X8.  In test mode without a behaviour filter the selection is the
    first behaviour, [silent], alone; so an exclusion list that names
    [silent] ends the run early with [All behaviors excluded], no request
    sent and nothing written, although four behaviours are not excluded. *)
Theorem test_mode_runs_first_behavior env config :
  testMode config = true →
  truthy (behaviorFilter config) = false →
  (truthy (excludeBehavior config) = false
   ∨ includes (excludeList config) "silent" = false →
   select_behaviors config = inr (take 1 FACILITATOR_BEHAVIORS))
  ∧ (truthy (excludeBehavior config) = true →
     includes (excludeList config) "silent" = true →
     createBatchExperiments env config
     = Some {| results := []; calls := []; writes := [];
               errors := ["All behaviors excluded"] |}).
Proof.
  intros Hmode Hfilter.
  assert (included_behaviors config = inr (take 1 FACILITATOR_BEHAVIORS)) as Hincl.
  { unfold included_behaviors. by rewrite Hfilter, Hmode. }
  split.
  - intros Hkeep. rewrite select_behaviors_stages, Hincl.
    unfold remaining_behaviors.
    destruct (truthy (excludeBehavior config)); [|done].
    destruct Hkeep as [|Hkeep]; [done|].
    cbn [take FACILITATOR_BEHAVIORS]. by rewrite filter_cons_True.
  - intros Hex Hsilent. apply early_return.
    rewrite select_behaviors_stages, Hincl.
    unfold remaining_behaviors. rewrite Hex.
    cbn [take FACILITATOR_BEHAVIORS].
    rewrite filter_cons_False; [done|]. cbn [fb_name]. by rewrite Hsilent.
Qed.

(** [--test --exclude-behavior silent] creates nothing. *)
Lemma test_mode_runs_first_behavior_witness :
  includes (excludeList test_without_silent) "silent" = true
  ∧ createBatchExperiments demo_env test_without_silent
    = Some {| results := []; calls := []; writes := [];
              errors := ["All behaviors excluded"] |}.
Proof.
  split; [reflexivity|].
  apply (test_mode_runs_first_behavior demo_env test_without_silent); reflexivity.
Defined.

(** ** The size of the design *)

Lemma axis_nonempty config : 0 < length (axis config).
Proof.
  unfold axis, groupSizes.
  destruct (scenarios config) as [[|s ss]|]; destruct (testMode config);
    simpl; lia.
Qed.

Lemma enumerated_nested config behaviors :
  select_behaviors config = inr behaviors →
  enumerated config = flat_map (fun b => spec_of b <$> axis config) behaviors.
Proof.
  intros Hsel. unfold enumerated. rewrite Hsel. apply allExperiments_nested.
Qed.

(** X9.  A run either returns early or has work to do: the design is empty
    exactly when the selection ends the run early.  It never holds more
    than five specs per point of its inner axis (the scenarios, or else the
    group sizes), and in group-size mode every spec has a group size
    between 2 and 6. *)
Theorem design_is_empty_only_on_early_return config :
  (enumerated config = [] ↔ ∃ message, select_behaviors config = inl message)
  ∧ length (enumerated config) ≤ 5 * length (axis config)
  ∧ ∀ e, e ∈ enumerated config → ec_scenario e = None → 2 ≤ ec_groupSize e ≤ 6.
Proof.
  pose proof (axis_nonempty config) as Haxis.
  destruct (select_behaviors config) as [message|behaviors] eqn:Hsel.
  - assert (enumerated config = []) as Hnone
      by (unfold enumerated; by rewrite Hsel).
    rewrite Hnone. split_and!; [split; by eauto|simpl; lia|].
    intros e He. by apply elem_of_nil in He.
  - pose proof (enumerated_nested _ _ Hsel) as Hall.
    apply select_behaviors_inr in Hsel as (Hne & Hsub & _).
    apply sublist_length in Hsub as Hlen. change (length FACILITATOR_BEHAVIORS) with 5 in Hlen.
    assert (length (enumerated config) = length behaviors * length (axis config))
      as Hsize by (rewrite Hall; apply length_blocks).
    split_and!.
    + split; [|by intros (? & [=])]. intros Hnil. rewrite Hnil in Hsize.
      destruct behaviors; [done|]. simpl in Hsize. lia.
    + rewrite Hsize. by apply Nat.mul_le_mono_r.
    + intros e He Hmode. rewrite Hall in He.
      apply list_elem_of_In, in_flat_map in He as (b & _ & He).
      apply list_elem_of_In, list_elem_of_fmap in He as (x & -> & Hx).
      unfold axis, groupSizes in Hx. cbn [spec_of ec_groupSize ec_scenario] in *.
      destruct (scenarios config) as [[|s ss]|].
      2:{ apply list_elem_of_fmap in Hx as (s' & -> & _). done. }
      all: apply list_elem_of_fmap in Hx as (g & -> & Hg); cbn [fst];
        destruct (testMode config);
        repeat (apply elem_of_cons in Hg as [->|Hg]; [lia|]);
        by apply elem_of_nil in Hg.
Qed.

(** ** Generic personas *)

Lemma base_agent_ids_distinct : NoDup (pp_agentId <$> basePersonas).
Proof. apply (bool_decide_unpack _). by vm_compute. Qed.

Lemma base_names_distinct : NoDup (pp_name <$> basePersonas).
Proof. apply (bool_decide_unpack _). by vm_compute. Qed.

(** X10.  [generateParticipantPersonas count] is the first [count] of six
    fixed personas: it returns [min count 6] of them, so never more than
    six however many are asked for; asking for more only appends; and no
    two of the personas returned share an agent id or a name. *)
Theorem generic_personas count :
  length (generateParticipantPersonas count) = count `min` 6
  ∧ (∀ more, generateParticipantPersonas count
             `prefix_of` generateParticipantPersonas (count + more))
  ∧ (6 ≤ count → generateParticipantPersonas count = basePersonas)
  ∧ NoDup (pp_agentId <$> generateParticipantPersonas count)
  ∧ NoDup (pp_name <$> generateParticipantPersonas count).
Proof.
  unfold generateParticipantPersonas. split_and!.
  - by rewrite length_take.
  - intros more.
    replace (take count basePersonas)
      with (take count (take (count + more) basePersonas)).
    + apply prefix_take.
    + rewrite take_take. f_equal. lia.
  - intros Hcount. by apply take_ge.
  - pose proof base_agent_ids_distinct as Hdup.
    eapply sublist_NoDup in Hdup; [exact Hdup|].
    apply fmap_sublist, sublist_take.
  - pose proof base_names_distinct as Hdup.
    eapply sublist_NoDup in Hdup; [exact Hdup|].
    apply fmap_sublist, sublist_take.
Qed.

(** ** Personality descriptions *)

Lemma append_nonempty c a b : String c a +:+ b ≠ "".
Proof. change (String c (a +:+ b) ≠ ""). discriminate. Qed.





(** ** Scenario personas *)




(** The personas of a scenario with two participants, the first with a
    marked personality and the second with none. *)
Example dinner_personas :
  pp_agentId <$> scenarioToPersonas dinner
  = ["participant_ana_maria"; "participant_bo_2"]
  ∧ (temperature ∘ pp_modelSettings) <$> scenarioToPersonas dinner = [70; 75]
  ∧ oceanToPersonalityDescription ∘ ocean <$> participants dinner
    = ["Your personality: You are very open to new ideas and experiences, "
         +:+ "reserved and thoughtful before speaking, generally friendly.";
       ""].
Proof. by vm_compute. Qed.

(** ** The command line *)

Lemma indexOf_first flag pre rest :
  flag ∉ pre → indexOf (pre ++ flag :: rest) flag = Some (length pre).
Proof.
  induction pre as [|a pre IH]; intros Hpre; cbn [app indexOf length].
  - by rewrite String.eqb_refl.
  - apply not_elem_of_cons in Hpre as [Hne Hpre].
    destruct (String.eqb_spec a flag) as [->|_]; [done|].
    by rewrite IH.
Qed.

Lemma indexOf_absent flag args : flag ∉ args → indexOf args flag = None.
Proof.
  induction args as [|a args IH]; intros Hargs; cbn [indexOf]; [done|].
  apply not_elem_of_cons in Hargs as [Hne Hargs].
  destruct (String.eqb_spec a flag) as [->|_]; [done|].
  by rewrite IH.
Qed.

(** X13.  [getArg] reads the argument that follows the first occurrence
    of a flag: a second occurrence of the flag is not looked at, a flag in
    last position has no value, and a flag that is absent has none either;
    [hasFlag] holds exactly of the arguments present. *)
Theorem getArg_lookup flag :
  (∀ pre value post,
     flag ∉ pre → getArg (pre ++ flag :: value :: post) flag = Some value)
  ∧ (∀ pre, flag ∉ pre → getArg (pre ++ [flag]) flag = None)
  ∧ (∀ args, flag ∉ args → getArg args flag = None)
  ∧ (∀ args, hasFlag args flag = true ↔ flag ∈ args).
Proof.
  unfold getArg. split_and!.
  - intros pre value post Hpre. rewrite indexOf_first by done.
    rewrite lookup_app_r by lia.
    by replace (length pre + 1 - length pre) with 1 by lia.
  - intros pre Hpre. rewrite indexOf_first by done.
    apply lookup_ge_None. rewrite length_app. simpl. lia.
  - intros args Hargs. by rewrite indexOf_absent.
  - intros args. unfold hasFlag, includes. rewrite existsb_exists. split.
    + intros (a & Ha & Heq). apply String.eqb_eq in Heq as ->.
      by apply list_elem_of_In.
    + intros Hin. exists flag. split; [by apply list_elem_of_In|].
      apply String.eqb_refl.
Qed.

(** A flag given twice, a flag in last position, and a flag whose value is
    another flag. *)
Example getArg_on_a_command_line :
  let args := ["--output"; "a.json"; "--behavior"; "--test"; "--output"; "b.json";
               "--scenario"] in
  getArg args "--output" = Some "a.json"
  ∧ getArg args "--scenario" = None
  ∧ getArg args "--behavior" = Some "--test"
  ∧ hasFlag args "--test" = true
  ∧ getArg args "--api-key" = None.
Proof. by vm_compute. Qed.

(** ** The scenarios file *)

(** X14.  How [main] loads its scenarios.  Without [--scenarios-file] the
    type filter and the file system play no part, and the configuration has
    no scenarios.  With it, a file that cannot be read or parsed ends the
    program (exit code 1), and the program ends at this point only when
    no scenario of the file matches the filter or the file holds none; when
    [main] goes on, the scenarios are those of the file that match the
    filter, in the file's order and at least one, so that the run has one
    point of its inner axis per scenario. *)
Theorem scenario_loading readScenarios scenariosFile scenarioTypeFilter :
  (truthy scenariosFile = false →
   main_scenarios readScenarios scenariosFile scenarioTypeFilter = inr []
   ∧ config_scenarios [] = None)
  ∧ (truthy scenariosFile = true →
     readScenarios (show scenariosFile) = None →
     main_scenarios readScenarios scenariosFile scenarioTypeFilter
     = inl "No scenarios found matching criteria")
  ∧ (∀ message,
       main_scenarios readScenarios scenariosFile scenarioTypeFilter = inl message →
       message = "No scenarios found matching criteria"
       ∧ truthy scenariosFile = true
       ∧ ∀ s, s ∈ loadScenarios readScenarios (show scenariosFile) →
              truthy scenarioTypeFilter = true
              ∧ occurs (toLowerCase (show scenarioTypeFilter))
                       (toLowerCase (scenario_type s)) = false)
  ∧ (∀ loaded,
       truthy scenariosFile = true →
       main_scenarios readScenarios scenariosFile scenarioTypeFilter = inr loaded →
       loaded ≠ []
       ∧ config_scenarios loaded = Some loaded
       ∧ (∃ content,
            readScenarios (show scenariosFile) = Some content
            ∧ loaded `sublist_of` content
            ∧ (truthy scenarioTypeFilter = false → loaded = content)
            ∧ (truthy scenarioTypeFilter = true →
               ∀ s, s ∈ loaded
                    ↔ s ∈ content
                      ∧ occurs (toLowerCase (show scenarioTypeFilter))
                               (toLowerCase (scenario_type s)) = true))
       ∧ ∀ config, scenarios config = config_scenarios loaded →
           axis config = (fun s => (participant_count s, Some s)) <$> loaded).
Proof.
  unfold main_scenarios, loadScenarios. cbv zeta. split_and!.
  - by intros ->.
  - intros -> ->. by destruct (truthy scenarioTypeFilter).
  - intros message. destruct (truthy scenariosFile); [|done].
    fold (loadScenarios readScenarios (show scenariosFile)).
    set (content := loadScenarios readScenarios (show scenariosFile)).
    destruct (truthy scenarioTypeFilter).
    + destruct (filter _ content) as [|s kept] eqn:Hf; [|done].
      intros [= <-]. split_and!; [done..|]. intros s Hs. split; [done|].
      destruct (occurs _ _) eqn:Hocc; [|done].
      assert (s ∈ filter (fun s => occurs (toLowerCase (show scenarioTypeFilter))
                                          (toLowerCase (scenario_type s)) = true)
                         content) as Hin
        by (by apply list_elem_of_filter).
      rewrite Hf in Hin. by apply elem_of_nil in Hin.
    + destruct content as [|s content'] eqn:Hcontent; [|done].
      intros [= <-]. split_and!; [done..|]. intros s Hs. by apply elem_of_nil in Hs.
  - intros loaded -> Hloaded.
    destruct (readScenarios (show scenariosFile)) as [content|].
    2:{ by destruct (truthy scenarioTypeFilter). }
    assert (loaded ≠ []) as Hne.
    { intros ->.
      destruct (truthy scenarioTypeFilter);
        [destruct (filter _ content)|destruct content]; done. }
    assert (config_scenarios loaded = Some loaded) as Hconfig
      by (by destruct loaded).
    split_and!; [done|done| |].
    + exists content. split; [done|].
      destruct (truthy scenarioTypeFilter).
      * destruct (filter _ content) as [|s kept] eqn:Hf; [done|].
        injection Hloaded as <-. rewrite <- Hf.
        split_and!; [apply sublist_filter|done|].
        intros _ s'. rewrite list_elem_of_filter. tauto.
      * destruct content; [done|]. injection Hloaded as <-. done.
    + intros config Hscenarios. unfold axis. rewrite Hscenarios, Hconfig.
      by destruct loaded.
Qed.

(** A file of two scenarios, read with [--scenario-type RESTAURANT]: the
    one whose type mentions a restaurant, in whatever case, is kept. *)
Lemma scenario_loading_witness :
  main_scenarios (one_file "scenarios.json" [solo; dinner])
    (Some "scenarios.json") (Some "RESTAURANT")
  = inr [dinner]
  ∧ config_scenarios [dinner] = Some [dinner]
  ∧ main_scenarios (one_file "scenarios.json" [solo; dinner])
      (Some "missing.json") None
    = inl "No scenarios found matching criteria".
Proof.
  split; [reflexivity|].
  split.
  - apply (scenario_loading (one_file "scenarios.json" [solo; dinner])
             (Some "scenarios.json") (Some "RESTAURANT")); reflexivity.
  - apply (scenario_loading (one_file "scenarios.json" [solo; dinner])
             (Some "missing.json") None); reflexivity.
Defined.

(** ** The dialogue text *)

Lemma generateSimpleDialogue_blocks env rs :
  generateSimpleDialogue env rs = join newline (flat_map (dialogue_block env) rs).
Proof. unfold generateSimpleDialogue. by rewrite dialogue_lines. Qed.

Lemma join_nonempty sep c l lines : join sep (String c l :: lines) ≠ "".
Proof.
  destruct lines as [|l' lines]; [done|]. cbn [join]. apply append_nonempty.
Qed.

(** The lines of a result list: none, or a header first. *)
Lemma blocks_header env rs :
  (flat_map (dialogue_block env) rs = [] ∧ Forall (fun r => rendered r = false) rs)
  ∨ ∃ c header lines,
      flat_map (dialogue_block env) rs = String c header :: lines
      ∧ Exists (fun r => rendered r = true) rs.
Proof.
  induction rs as [|r rs IH]; [left; by split|].
  cbn [flat_map]. destruct (rendered r) eqn:Hr.
  - assert (∃ c header lines, dialogue_block env r = String c header :: lines)
      as (c & header & lines & ->).
    { unfold dialogue_block. rewrite Hr. by eexists _, _, _. }
    right. eexists _, _, _. split; [reflexivity|by left].
  - assert (dialogue_block env r = []) as ->
      by (unfold dialogue_block; by rewrite Hr).
    destruct IH as [[-> Hall]|(c & header & lines & -> & Hex)].
    + left. split; [done|]. by constructor.
    + right. exists c, header, lines. split; [done|]. by right.
Qed.

(** X15.  The dialogue text is empty exactly when the list holds no
    success with a conversation; errors and successes without conversation
    leave no trace in it. *)
Theorem dialogue_empty_iff env rs :
  generateSimpleDialogue env rs = "" ↔ Forall (fun r => rendered r = false) rs.
Proof.
  rewrite generateSimpleDialogue_blocks.
  destruct (blocks_header env rs) as [[-> Hall]|(c & header & lines & -> & Hex)].
  - done.
  - split; [by intros ?%join_nonempty|].
    intros Hall. apply Exists_exists in Hex as (r & Hin & Hr).
    eapply Forall_forall in Hall; [|done]. congruence.
Qed.

Lemma append_associative a b c : (a +:+ b) +:+ c = a +:+ (b +:+ c).
Proof.
  induction a as [|x a IH]; [done|].
  change (String x ((a +:+ b) +:+ c) = String x (a +:+ (b +:+ c))). by rewrite IH.
Qed.

Lemma join_app sep l1 l2 :
  l1 ≠ [] → l2 ≠ [] →
  join sep (l1 ++ l2) = join sep l1 +:+ sep +:+ join sep l2.
Proof.
  intros Hl1 Hl2. induction l1 as [|a l1 IH]; [done|].
  destruct l1 as [|b l1].
  - destruct l2; [done|]. reflexivity.
  - change (join sep ((a :: b :: l1) ++ l2))
      with (a +:+ sep +:+ join sep ((b :: l1) ++ l2)).
    rewrite IH by done.
    change (join sep (a :: b :: l1)) with (a +:+ sep +:+ join sep (b :: l1)).
    by rewrite !append_associative.
Qed.

Lemma prefix_empty s : String.prefix "" s = true.
Proof. by destruct s. Qed.

Lemma prefix_self s : String.prefix s s = true.
Proof.
  induction s as [|c s IH]; [done|]. simpl.
  by destruct (Ascii.ascii_dec c c).
Qed.

Lemma dialogue_prefix env rs more :
  String.prefix (generateSimpleDialogue env rs)
                (generateSimpleDialogue env (rs ++ more)) = true.
Proof.
  rewrite !generateSimpleDialogue_blocks, flat_map_app.
  destruct (flat_map (dialogue_block env) rs) as [|l1 ls1] eqn:H1.
  { apply prefix_empty. }
  destruct (flat_map (dialogue_block env) more) as [|l2 ls2] eqn:H2.
  { rewrite app_nil_r. apply prefix_self. }
  rewrite join_app by done. apply prefix_append.
Qed.

(** X16.  The dialogue text only grows with the result list: the text of
    a list is the beginning of the text of any list that extends it.  So
    each checkpoint, which renders the first results of the final list,
    writes a dialogue file that begins with what the checkpoint before it
    wrote. *)
Theorem dialogue_grows env rs :
  (∀ more,
     String.prefix (generateSimpleDialogue env rs)
                   (generateSimpleDialogue env (rs ++ more)) = true)
  ∧ (∀ n m, n ≤ m →
       String.prefix (generateSimpleDialogue env (take n rs))
                     (generateSimpleDialogue env (take m rs)) = true).
Proof.
  split; [apply dialogue_prefix|].
  intros n m Hnm.
  replace (take m rs) with (take n rs ++ take (m - n) (drop n rs)).
  - apply dialogue_prefix.
  - rewrite take_take_drop. f_equal. lia.
Qed.

(** ** Output paths that hold [.json] *)

Lemma length_append a b :
  String.length (a +:+ b) = String.length a + String.length b.
Proof.
  induction a as [|c a IH]; [done|].
  change (String c a +:+ b) with (String c (a +:+ b)). simpl. by rewrite IH.
Qed.

Lemma substring_whole s : ∀ m,
  String.length s ≤ m → String.substring 0 m s = s.
Proof.
  induction s as [|c s IH]; intros [|m] Hm; simpl in *; try done; try lia.
  rewrite IH; [done|lia].
Qed.

Lemma substring_skip p m post :
  String.substring (String.length p) m (p +:+ post) = String.substring 0 m post.
Proof.
  induction p as [|c p IH]; [done|].
  change (String c p +:+ post) with (String c (p +:+ post)). by simpl.
Qed.

(** Replacing at the first occurrence, when the text starts with the
    pattern. *)
Lemma replace_here pattern replacement post :
  replace pattern replacement (pattern +:+ post) = replacement +:+ post.
Proof.
  destruct (pattern +:+ post) as [|c s] eqn:Hs; cbn [replace];
    rewrite <- Hs, prefix_append, substring_skip, substring_whole; try done;
    rewrite length_append; lia.
Qed.

Lemma replace_later pattern replacement c s :
  String.prefix pattern (String c s) = false →
  replace pattern replacement (String c s)
  = String c (replace pattern replacement s).
Proof. intros H. cbn [replace]. by rewrite H. Qed.

(** A replacement changes the length by that of the replacement less that
    of the pattern. *)
Lemma replace_length pattern replacement : ∀ s,
  occurs pattern s = true →
  String.length (replace pattern replacement s) + String.length pattern
  = String.length s + String.length replacement.
Proof.
  induction s as [|c s IH]; intros Hocc.
  - cbn [occurs] in Hocc. destruct (String.prefix pattern "") eqn:Hp; [|done].
    apply prefix_split in Hp as [post Hpost].
    rewrite Hpost, replace_here, !length_append. lia.
  - cbn [occurs] in Hocc. destruct (String.prefix pattern (String c s)) eqn:Hp.
    + apply prefix_split in Hp as [post Hpost].
      rewrite Hpost, replace_here, !length_append. lia.
    + rewrite replace_later by done. simpl. rewrite <- IH by done. lia.
Qed.

Ltac expose_strings :=
  repeat first
    [ progress change (String ?a ?s +:+ ?t) with (String a (s +:+ t)) in *
    | progress change ("" +:+ ?t) with t in * ].

(** No occurrence of [.json] straddles the end of a text and a [.json]
    that follows it. *)
Lemma json_no_straddle c pre post :
  String.prefix ".json" (String c (pre +:+ ".json" +:+ post)) = true →
  String.prefix ".json" (String c (pre +:+ ".jso")) = true.
Proof.
  intros H. apply prefix_split in H as [rest H]. expose_strings.
  injection H as -> H.
  destruct pre as [|c2 pre]; expose_strings; [done|]. injection H as -> H.
  destruct pre as [|c3 pre]; expose_strings; [done|]. injection H as -> H.
  destruct pre as [|c4 pre]; expose_strings; [done|]. injection H as -> H.
  destruct pre as [|c5 pre]; expose_strings; [done|]. injection H as -> H.
  apply (prefix_append ".json").
Qed.

Lemma replace_first_json replacement post : ∀ pre,
  occurs ".json" (pre +:+ ".jso") = false →
  replace ".json" replacement (pre +:+ ".json" +:+ post)
  = pre +:+ replacement +:+ post.
Proof.
  induction pre as [|c pre IH]; intros Hocc.
  - change ("" +:+ ?x) with x. apply replace_here.
  - change (String c pre +:+ ?x) with (String c (pre +:+ x)) in *.
    cbn [occurs] in Hocc.
    destruct (String.prefix ".json" (String c (pre +:+ ".jso"))) eqn:Hp; [done|].
    rewrite replace_later, IH; [done..|].
    destruct (String.prefix ".json" (String c (pre +:+ ".json" +:+ post))) eqn:Hq;
      [|done].
    apply json_no_straddle in Hq. congruence.
Qed.

Lemma replace_nonempty pattern c replacement s :
  s ≠ "" → replace pattern (String c replacement) s ≠ "".
Proof.
  destruct s as [|d s]; [done|]. intros _. cbn [replace].
  destruct (String.prefix _ _); [apply append_nonempty|done].
Qed.

Lemma dialoguePath_replace config p :
  outputPath config = Some p → p ≠ "" →
  dialoguePath config = replace ".json" "_dialogues.txt" p.
Proof.
  intros Hp Hne. unfold dialoguePath. rewrite Hp. cbn [fmap option_fmap option_map str_or].
  destruct (String.eqb_spec (replace ".json" "_dialogues.txt" p) "") as [Hnil|]; [|done].
  by apply replace_nonempty in Hnil.
Qed.

Lemma file_after_app ws1 ws2 path :
  file_after (ws1 ++ ws2) path
  = match file_after ws2 path with
    | Some c => Some c
    | None => file_after ws1 path
    end.
Proof.
  induction ws1 as [|[p c] ws1 IH]; cbn [app file_after].
  - by destruct (file_after ws2 path).
  - rewrite IH. by destruct (file_after ws2 path).
Qed.

(** The writes of a run that saves its checkpoints end with the checkpoint
    over all the results. *)
Lemma last_checkpoint env config :
  promises_settle env config →
  truthy (outputPath config) = true →
  ∃ st,
    createBatchExperiments env config = Some st
    ∧ (enumerated config = [] → writes st = [] ∧ results st = [])
    ∧ (enumerated config ≠ [] →
       ∃ earlier,
         writes st = earlier ++ checkpoint_writes env config (results st)).
Proof.
  intros Hsettle Hpath.
  destruct (saved_checkpoints env config Hsettle Hpath) as (st & Hrun & Hwrites & Hlen).
  exists st. split; [done|].
  pose proof (budget_pos config) as Hm.
  set (m := count_or (maxConcurrent config) 3) in *.
  split.
  - intros Hnone. rewrite Hnone in *. rewrite ceil_div_0 in Hwrites by done.
    split; [done|]. by apply length_zero_iff_nil.
  - intros Hsome.
    assert (0 < length (enumerated config)) as Hpos.
    { destruct (enumerated config); [done|simpl; lia]. }
    rewrite (ceil_div_step _ m) in Hwrites by done.
    set (n := ceil_div (length (enumerated config) - m) m) in *.
    assert (length (enumerated config) ≤ S n * m) as Hcover.
    { pose proof (ceil_div_covers (length (enumerated config)) m Hm) as Hc.
      by rewrite (ceil_div_step _ m) in Hc by done. }
    replace (seq 1 (S n)) with (seq 1 n ++ [S n]) in Hwrites
      by (by rewrite <- seq_S).
    rewrite flat_map_app in Hwrites. cbn [flat_map] in Hwrites.
    rewrite app_nil_r, take_ge in Hwrites by lia.
    eexists. exact Hwrites.
Qed.

(** X17.  When the output path holds [.json], the dialogue goes to a file
    of its own: the dialogue path is the output path with its first [.json]
    replaced by [_dialogues.txt] (nine characters longer), so a path that
    ends in the first [.json] it holds becomes [..._dialogues.txt], and one
    that has it earlier is cut in the middle.  After a run over at least one
    spec the output file holds the result list and the dialogue file its
    rendering. *)
Theorem json_path_keeps_files_apart env config p :
  outputPath config = Some p →
  occurs ".json" p = true →
  promises_settle env config →
  String.length (dialoguePath config) = String.length p + 9
  ∧ dialoguePath config ≠ p
  ∧ (∀ pre post,
       p = pre +:+ ".json" +:+ post →
       occurs ".json" (pre +:+ ".jso") = false →
       dialoguePath config = pre +:+ "_dialogues.txt" +:+ post)
  ∧ ∃ st,
      createBatchExperiments env config = Some st
      ∧ (enumerated config ≠ [] →
         file_after (writes st) p = Some (Json (results st))
         ∧ file_after (writes st) (dialoguePath config)
           = Some (Text (generateSimpleDialogue env (results st)))).
Proof.
  intros Hp Hocc Hsettle.
  assert (p ≠ "") as Hne by (by intros ->).
  assert (truthy (outputPath config) = true) as Hpath.
  { rewrite Hp. cbn [truthy]. by destruct (String.eqb_spec p ""). }
  pose proof (dialoguePath_replace config p Hp Hne) as Hdialogue.
  pose proof (replace_length ".json" "_dialogues.txt" p Hocc) as Hlen.
  change (String.length ".json") with 5 in Hlen.
  change (String.length "_dialogues.txt") with 14 in Hlen.
  assert (dialoguePath config ≠ p) as Hapart.
  { intros Heq. rewrite Hdialogue in Heq. rewrite Heq in Hlen. lia. }
  split_and!; [rewrite Hdialogue; lia|done| |].
  - intros pre post -> Hfirst. rewrite Hdialogue. by apply replace_first_json.
  - destruct (last_checkpoint env config Hsettle Hpath) as (st & Hrun & _ & Hlast).
    exists st. split; [done|]. intros Hsome.
    destruct (Hlast Hsome) as [earlier ->].
    unfold checkpoint_writes. rewrite Hp. cbn [show default id].
    rewrite !file_after_app. cbn [file_after].
    rewrite !String.eqb_refl.
    destruct (String.eqb_spec (dialoguePath config) p) as [|_]; done.
Qed.

(** The default output path, and one with [.json] before its end. *)
Lemma json_path_keeps_files_apart_witness :
  occurs ".json" "./batch_results.json" = true
  ∧ dialoguePath cli_config = "./batch_results_dialogues.txt"
  ∧ dialoguePath backup_config = "./results_dialogues.txt.bak"
  ∧ dialoguePath cli_config ≠ "./batch_results.json"
  ∧ ∃ st,
      createBatchExperiments demo_env cli_config = Some st
      ∧ file_after (writes st) "./batch_results.json" = Some (Json (results st)).
Proof.
  split; [reflexivity|]. split; [reflexivity|]. split; [reflexivity|].
  destruct (json_path_keeps_files_apart demo_env cli_config "./batch_results.json"
              eq_refl eq_refl (demo_env_settles cli_config eq_refl))
    as (_ & Hapart & _ & st & Hrun & Hfiles).
  split; [exact Hapart|]. exists st. split; [exact Hrun|].
  apply Hfiles. by vm_compute.
Defined.

(** ** The final save of [main] *)

(** X18.  After a run over at least one spec, the final save of [main]
    repeats the last checkpoint: the run's last two writes are the very
    writes [main] then makes, so the final save changes no file.  After an
    early return the run has written nothing and [main] saves an empty
    result list and an empty dialogue. *)
Theorem final_save_repeats_last_checkpoint env config p :
  outputPath config = Some p → p ≠ "" →
  promises_settle env config →
  ∃ st,
    createBatchExperiments env config = Some st
    ∧ (enumerated config ≠ [] →
       (∃ earlier, writes st = earlier ++ save_results env p (results st))
       ∧ ∀ path,
           file_after (writes st ++ save_results env p (results st)) path
           = file_after (writes st) path)
    ∧ (enumerated config = [] →
       writes st = []
       ∧ save_results env p (results st)
         = [(p, Json []); (replace ".json" "_dialogues.txt" p, Text "")]).
Proof.
  intros Hp Hne Hsettle.
  assert (truthy (outputPath config) = true) as Hpath.
  { rewrite Hp. cbn [truthy]. by destruct (String.eqb_spec p ""). }
  destruct (last_checkpoint env config Hsettle Hpath) as (st & Hrun & Hnone & Hlast).
  exists st. split; [done|].
  assert (∀ rs, checkpoint_writes env config rs = save_results env p rs) as Hsame.
  { intros rs. unfold checkpoint_writes, save_results.
    by rewrite (dialoguePath_replace config p Hp Hne), Hp. }
  split.
  - intros Hsome. destruct (Hlast Hsome) as [earlier Hw].
    rewrite Hsame in Hw. split; [by exists earlier|].
    intros path. rewrite Hw, !file_after_app.
    by destruct (file_after (save_results env p (results st)) path).
  - intros Hempty. destruct (Hnone Hempty) as [-> ->]. done.
Qed.

(** The run of the concrete server on the default command line ends with
    the two writes of the final save. *)
Lemma final_save_repeats_last_checkpoint_witness :
  promises_settle demo_env cli_config
  ∧ ∃ st,
      createBatchExperiments demo_env cli_config = Some st
      ∧ ∃ earlier,
          writes st
          = earlier ++ save_results demo_env "./batch_results.json" (results st).
Proof.
  split; [by apply demo_env_settles|].
  destruct (final_save_repeats_last_checkpoint demo_env cli_config
              "./batch_results.json" eq_refl ltac:(done)
              (demo_env_settles cli_config eq_refl))
    as (st & Hrun & Hlast & _).
  exists st. split; [done|]. apply Hlast. by vm_compute.
Defined.

(** ** Runs without an output path *)

Lemma flat_map_nil {X Y} (f : X → list Y) xs :
  (∀ x, f x = []) → flat_map f xs = [].
Proof. intros Hf. induction xs as [|x xs IH]; simpl; [done|]. by rewrite Hf, IH. Qed.

(** X19.  Without an output path (unset, or the empty string) a run
    writes no file at all: the results exist in the returned list only, and
    the fallback dialogue path [./batch_dialogues.txt] is computed and never
    written to. *)
Theorem no_output_path_no_writes env config :
  truthy (outputPath config) = false →
  promises_settle env config →
  dialoguePath config = "./batch_dialogues.txt"
  ∧ ∃ st, createBatchExperiments env config = Some st ∧ writes st = [].
Proof.
  intros Hpath Hsettle. split.
  - unfold dialoguePath. destruct (outputPath config) as [p|]; [|done].
    cbn [truthy] in Hpath. apply negb_false_iff, String.eqb_eq in Hpath as ->.
    reflexivity.
  - destruct (batch_spec env config Hsettle) as (rs & log & errs & Hrun & _).
    eexists. split; [exact Hrun|]. cbn [writes].
    apply flat_map_nil. intros k. unfold checkpoint. by rewrite Hpath.
Qed.

(** The test run of the concrete server saves nothing. *)
Lemma no_output_path_no_writes_witness :
  outputPath test_config = None
  ∧ ∃ st, createBatchExperiments demo_env test_config = Some st ∧ writes st = [].
Proof.
  split; [reflexivity|].
  apply (no_output_path_no_writes demo_env test_config); [reflexivity|].
  by apply demo_env_settles.
Defined.

(** ** The output path and the results *)




(** ** The requests of a unit *)

Lemma send_in_order_log env plan : ∀ log,
  ∃ k, (send_in_order env log plan).2 = log ++ take k plan
       ∧ k ≤ length plan
       ∧ (plan ≠ [] → 1 ≤ k)
       ∧ ((send_in_order env log plan).1 = None → k = length plan).
Proof.
  induction plan as [|q plan IH]; intros log; cbn [send_in_order].
  - exists 0. by rewrite app_nil_r.
  - destruct (refusal env log q) as [message|].
    + exists 1. cbn [snd fst take length]. split_and!; [done|lia|lia|done].
    + destruct (IH (log ++ [q])) as (k & Hlog & Hk & _ & Hall).
      exists (S k). rewrite Hlog. cbn [take length]. rewrite <- app_assoc.
      split_and!; [done|lia|lia|]. intros H. f_equal. by apply Hall.
Qed.

Lemma provisioning_plan_length config e experimentId cohortId :
  length (provisioning_plan config e experimentId cohortId) = provisioning_budget e.
Proof.
  unfold provisioning_plan, provisioning_budget.
  by rewrite length_app, length_fmap.
Qed.

Lemma provisioning_plan_posts config e experimentId cohortId :
  Forall (fun q => is_export q = false)
         (provisioning_plan config e experimentId cohortId).
Proof.
  unfold provisioning_plan. apply Forall_app. split.
  - by repeat constructor.
  - apply Forall_fmap, Forall_forall. by intros persona _.
Qed.

(** What the provisioning of one unit adds to the log. *)
Lemma provision_steps_log env config e log :
  ∃ sent,
    (provision_steps env config e log).2 = log ++ sent
    ∧ 1 ≤ length sent ≤ provisioning_budget e
    ∧ head sent = Some (experiment_request config e)
    ∧ Forall (fun q => is_export q = false) sent
    ∧ (∀ ids, (provision_steps env config e log).1 = inr ids →
         length sent = provisioning_budget e).
Proof.
  destruct (provision_in_order env config e log) as (experimentId & cohortId & ->).
  set (plan := provisioning_plan config e experimentId cohortId).
  destruct (send_in_order_log env plan log) as (k & Hlog & Hk & Hpos & Hall).
  pose proof (provisioning_plan_length config e experimentId cohortId) as Hlen.
  fold plan in Hlen. rewrite Hlen in Hk.
  specialize (Hpos ltac:(done)).
  exists (take k plan).
  assert (length (take k plan) = k) as Hsent by (rewrite length_take; lia).
  split_and!.
  - by destruct (send_in_order env log plan) as [[message|] log'].
  - lia.
  - lia.
  - destruct k; [lia|]. reflexivity.
  - apply Forall_take, provisioning_plan_posts.
  - intros ids Hids. rewrite Hsent, <- Hlen. apply Hall.
    by destruct (send_in_order env log plan) as [[message|] log'].
Qed.

Lemma provision_log env config e log :
  (provision env config e log).2 = (provision_steps env config e log).2.
Proof.
  unfold provision.
  by destruct (provision_steps env config e log) as [[message|[eid cid]] log'].
Qed.

(** X21.  The provisioning of a unit only appends to the log of requests:
    at least one request and at most three plus one per persona, the first
    being the experiment request of the spec, and never an export.  It
    returns the ids only after all of these requests were sent. *)
Theorem unit_request_bounds env config e log :
  ∃ sent,
    (provision env config e log).2 = log ++ sent
    ∧ 1 ≤ length sent ≤ provisioning_budget e
    ∧ head sent = Some (experiment_request config e)
    ∧ Forall (fun q => is_export q = false) sent
    ∧ (is_Some (setup_experimentId (provision env config e log).1) →
       length sent = provisioning_budget e).
Proof.
  destruct (provision_steps_log env config e log)
    as (sent & Hlog & Hlen & Hhead & Hposts & Hall).
  exists sent. rewrite provision_log. split_and!; [done|lia|lia|done|done|].
  unfold provision.
  destruct (provision_steps env config e log) as [[message|[eid cid]] log'];
    cbn [fst setup_experimentId].
  - by intros [? [=]].
  - intros _. by eapply Hall.
Qed.

(** ** The requests of a run *)

Section Logs.
Context {T : Type}.
Implicit Types (tasks : list (list request → T * list request)).

(** Tasks that each append between one and [cost i] requests leave a log
    extended by as many requests as tasks at least, and by the sum of the
    costs at most. *)
Lemma settle_log tasks (cost : nat → nat) order :
  (∀ i task l, tasks !! i = Some task →
     ∃ sent, (task l).2 = l ++ sent ∧ 1 ≤ length sent ≤ cost i) →
  Forall (fun i => i < length tasks) order →
  ∀ slots log,
    ∃ sent, (settle order tasks slots log).2 = log ++ sent
            ∧ length order ≤ length sent ≤ sum_list_with cost order.
Proof.
  intros Htasks. induction 1 as [|i order Hi _ IH]; intros slots log;
    cbn [settle sum_list_with length].
  - exists []. by rewrite app_nil_r.
  - apply lookup_lt_is_Some_2 in Hi as [task Htask]. rewrite Htask.
    destruct (Htasks i task log Htask) as (sent1 & Hsent1 & Hlen1).
    destruct (task log) as [x log1]. cbn [snd] in Hsent1. subst log1.
    destruct (IH (<[i:=Some x]> slots) (log ++ sent1)) as (sent2 & -> & Hlen2).
    exists (sent1 ++ sent2). rewrite <- app_assoc, length_app. split; [done|lia].
Qed.

Lemma promise_all_log order tasks log :
  (promise_all order tasks log).2
  = (settle order tasks (replicate (length tasks) None) log).2.
Proof. unfold promise_all. by destruct (settle _ _ _ _). Qed.
End Logs.

Lemma sum_over_indices {X} (f : X → nat) (l : list X) : ∀ pre,
  sum_list_with (fun i => from_option f 0 ((pre ++ l) !! i))
                (seq (length pre) (length l))
  = sum_list_with f l.
Proof.
  induction l as [|x l IH]; intros pre; [done|].
  cbn [length seq sum_list_with]. rewrite list_lookup_middle by done.
  cbn [from_option]. f_equal.
  specialize (IH (pre ++ [x])). rewrite <- app_assoc, length_app in IH.
  cbn [length app] in IH. by rewrite Nat.add_1_r in IH.
Qed.

Lemma request_budget_sum (batch : list ExperimentConfig) :
  sum_list_with request_budget batch
  = sum_list_with provisioning_budget batch + length batch.
Proof.
  induction batch as [|e batch IH]; [done|].
  cbn [sum_list_with length]. unfold request_budget at 1. lia.
Qed.

Lemma record_setup_log env config setup log :
  ∃ sent, (record_setup env config setup log).2 = log ++ sent ∧ length sent ≤ 1.
Proof.
  unfold record_setup. destruct (truthy (setup_error setup)).
  - exists []. split; [by rewrite app_nil_r|simpl; lia].
  - unfold exportExperimentConversations, mbind, io_bind, request_json.
    destruct (getExport env log _); eexists [_]; (split; [reflexivity|simpl; lia]).
Qed.

Lemma record_loop_log env config setups : ∀ rs0 log,
  ∃ sent,
    (foldl (fun '(results, log) setup =>
              let '(result, log) := record_setup env config setup log in
              (results ++ [result], log))
           (rs0, log) setups).2
    = log ++ sent
    ∧ length sent ≤ length setups.
Proof.
  induction setups as [|s setups IH]; intros rs0 log; cbn [foldl].
  - exists []. by rewrite app_nil_r.
  - destruct (record_setup_log env config s log) as (sent1 & Hsent1 & Hlen1).
    destruct (record_setup env config s log) as [r log1]. cbn [snd] in Hsent1.
    subst log1.
    destruct (IH (rs0 ++ [r]) (log ++ sent1)) as (sent2 & -> & Hlen2).
    exists (sent1 ++ sent2). rewrite <- app_assoc, length_app. cbn [length].
    split; [done|lia].
Qed.

Section RunLogs.
Variables (env : environment) (config : BatchConfig).
Hypothesis Horder : ∀ i n, completionOrder env i n ≡ₚ seq 0 n.

Local Abbreviation budget := (count_or (maxConcurrent config) 3).

(** One window: at least one request per unit, at most the budgets of its
    units. *)
Lemma window_calls all i st st' :
  window env config all i st = Some st' →
  ∃ sent,
    calls st' = calls st ++ sent
    ∧ length (take budget (drop i all)) ≤ length sent
      ≤ sum_list_with request_budget (take budget (drop i all)).
Proof.
  unfold window. set (batch := take budget (drop i all)).
  pose proof (promise_all_log (completionOrder env i (length batch))
                (provision env config <$> batch) (calls st)) as Hlog.
  destruct (promise_all_settles (provision env config <$> batch)
              (completionOrder env i (length batch)) (calls st))
    as (setups & log1 & Hall & Hsetups).
  { by rewrite length_fmap. }
  rewrite Hall in Hlog |- *. cbn [snd] in Hlog. cbn [mbind option_bind].
  destruct (settle_log (provision env config <$> batch)
              (fun i => from_option provisioning_budget 0 (batch !! i))
              (completionOrder env i (length batch)))
    with (slots := replicate (length (provision env config <$> batch)) (@None Setup))
         (log := calls st)
    as (sent1 & Hsent1 & Hlen1).
  { intros j task l Htask. rewrite list_lookup_fmap in Htask.
    destruct (batch !! j) as [e|]; [|done]. injection Htask as <-.
    destruct (provision_steps_log env config e l) as (sent & Hsent & Hlen & _).
    exists sent. by rewrite provision_log. }
  { rewrite Horder, length_fmap. apply Forall_seq. intros j. lia. }
  rewrite Hsent1 in Hlog. subst log1. clear Hsent1.
  rewrite Horder, length_seq in Hlen1.
  pose proof (sum_over_indices provisioning_budget batch []) as Hsum.
  cbn [app length] in Hsum. rewrite Hsum in Hlen1. clear Hsum.
  apply Forall2_length in Hsetups. rewrite length_fmap in Hsetups.
  destruct (if _ : bool then _ else _) as [polled|]; [|done].
  cbn [mbind option_bind].
  destruct (record_loop_log env config setups (results st) (calls st ++ sent1))
    as (sent2 & Hsent2 & Hlen2).
  destruct (foldl _ _ setups) as [rs log2]. cbn [snd] in Hsent2. subst log2.
  intros [= <-]. cbn [calls].
  exists (sent1 ++ sent2). rewrite <- app_assoc, length_app, request_budget_sum.
  split; [done|lia].
Qed.

Lemma windows_calls all fuel : ∀ i st st',
  windows env config all fuel i st = Some st' →
  ∃ sent,
    calls st' = calls st ++ sent
    ∧ length (drop i all) ≤ length sent
      ≤ sum_list_with request_budget (drop i all).
Proof.
  pose proof (budget_pos config) as Hm.
  assert (∀ i st, length all ≤ i →
            ∃ sent, calls st = calls st ++ sent
                    ∧ length (drop i all) ≤ length sent
                      ≤ sum_list_with request_budget (drop i all)) as Hdone.
  { intros i st Hi. exists []. rewrite app_nil_r, drop_ge by done. by simpl. }
  induction fuel as [|fuel IH]; intros i st st'; cbn [windows].
  { destruct (Nat.ltb_spec i (length all)) as [Hi|Hi]; [done|].
    intros [= <-]. by apply Hdone. }
  destruct (Nat.ltb_spec i (length all)) as [Hi|Hi];
    [|intros [= <-]; by apply Hdone].
  destruct (window env config all i st) as [st1|] eqn:Hw; [|done].
  cbn [mbind option_bind]. intros Hrest.
  destruct (window_calls all i st st1 Hw) as (sent1 & Hsent1 & Hlen1).
  destruct (IH _ _ _ Hrest) as (sent2 & Hsent2 & Hlen2).
  exists (sent1 ++ sent2). rewrite Hsent2, Hsent1, <- app_assoc. split; [done|].
  rewrite <- (take_drop budget (drop i all)), drop_drop.
  rewrite !length_app, sum_list_with_app. lia.
Qed.
End RunLogs.

Lemma generic_budget b g :
  g ≤ 6 → request_budget (spec_of b (g, None)) = 4 + g.
Proof.
  intros Hg. unfold request_budget, provisioning_budget, participantPersonas.
  cbn [spec_of ec_scenario ec_groupSize fst snd].
  unfold generateParticipantPersonas. rewrite length_take.
  change (length basePersonas) with 6. lia.
Qed.

(** In group-size mode a behaviour accounts for forty requests at most. *)
Lemma group_size_budget config behaviors :
  (scenarios config = None ∨ scenarios config = Some []) →
  sum_list_with request_budget
    (flat_map (fun b => spec_of b <$> axis config) behaviors)
  ≤ 40 * length behaviors.
Proof.
  intros Hmode.
  assert (axis config = (fun g => (g, None)) <$> groupSizes config) as ->.
  { unfold axis. by destruct Hmode as [->| ->]. }
  induction behaviors as [|b behaviors IH]; [done|].
  cbn [flat_map length]. rewrite sum_list_with_app.
  assert (sum_list_with request_budget
            (spec_of b <$> ((fun g => (g, None)) <$> groupSizes config)) ≤ 40).
  { unfold groupSizes. destruct (testMode config);
      cbn [fmap list_fmap sum_list_with]; rewrite !generic_budget; lia. }
  lia.
Qed.

(** X22.  The requests of a run, the poller's fetches apart.  A run sends
    at least one request per unit and at most, for each unit, three plus one
    per persona to provision it and one to export it; in group-size mode
    that is never more than 200 requests.  The log only grows from window to
    window: the requests sent by the end of a window are the beginning of
    the log of the whole run, so no unit of a later window is touched before
    the earlier windows are exported. *)
Theorem run_request_bound env config :
  promises_settle env config →
  ∃ st,
    createBatchExperiments env config = Some st
    ∧ length (enumerated config) ≤ length (calls st)
      ≤ sum_list_with request_budget (enumerated config)
    ∧ (scenarios config = None ∨ scenarios config = Some [] →
       length (calls st) ≤ 200)
    ∧ ∀ k, k ≤ ceil_div (length (enumerated config))
                  (count_or (maxConcurrent config) 3) →
        ∃ st_k,
          after_windows env config (enumerated config) k = Some st_k
          ∧ calls st_k `prefix_of` calls st.
Proof.
  intros Hsettle. pose proof Hsettle as [Horder _].
  destruct (batch_spec env config Hsettle) as (rs & log & errs & Hrun & _).
  eexists. split; [exact Hrun|]. cbn [calls].
  unfold createBatchExperiments, enumerated in *.
  destruct (select_behaviors config) as [message|behaviors] eqn:Hsel.
  - injection Hrun as <- <- _ <-. split_and!; [simpl; lia| simpl; lia|simpl; lia|].
    intros k Hk. rewrite ceil_div_0 in Hk by apply budget_pos.
    assert (k = 0) as -> by lia. exists empty_run. by split.
  - set (all := allExperiments config behaviors) in *.
    destruct (windows_calls env config Horder all _ _ _ _ Hrun)
      as (sent & Hcalls & Hlen).
    simpl in Hcalls. rewrite Hcalls. rewrite drop_0 in Hlen.
    split_and!; [lia|lia| |].
    + intros Hmode. etrans; [apply Hlen|]. unfold all.
      rewrite allExperiments_nested.
      etrans; [by apply group_size_budget|].
      apply select_behaviors_inr in Hsel as (_ & Hsub & _).
      apply sublist_length in Hsub.
      change (length FACILITATOR_BEHAVIORS) with 5 in Hsub. lia.
    + intros k Hk.
      destruct (after_windows_spec env config all Hsettle k Hk)
        as (st_k & Hk' & _ & Hrest).
      exists st_k. split; [done|].
      rewrite Hrun in Hrest.
      destruct (windows_calls env config Horder all _ _ _ _ Hrest)
        as (later & Hlater & _).
      cbn [calls] in Hlater. rewrite <- Hcalls, Hlater. by apply prefix_app_r.
Qed.

(** The full run against the concrete server: 25 units, 200 requests at
    most. *)
Lemma run_request_bound_witness :
  promises_settle demo_env cli_config
  ∧ ∃ st,
      createBatchExperiments demo_env cli_config = Some st
      ∧ 25 ≤ length (calls st) ≤ 200.
Proof.
  split; [by apply demo_env_settles|].
  destruct (run_request_bound demo_env cli_config (demo_env_settles cli_config eq_refl))
    as (st & Hrun & Hlen & Hmax & _).
  exists st. split; [exact Hrun|]. split.
  - exact (proj1 Hlen).
  - apply Hmax. by left.
Defined.

(** ** A server that cannot be reached *)

Lemma Forall2_fmap_eq {X Y} (f : X → Y) l k :
  Forall2 (fun x y => y = f x) l k → k = f <$> l.
Proof. induction 1 as [|x y l k -> _ IH]; [done|]. simpl. by f_equal. Qed.

Lemma omap_over_indices {X Y} (f : X → Y) (l : list X) : ∀ pre,
  omap (fun i => f <$> (pre ++ l) !! i) (seq (length pre) (length l)) = f <$> l.
Proof.
  induction l as [|x l IH]; intros pre; [done|].
  cbn [length seq omap list_omap]. rewrite list_lookup_middle by done.
  cbn [fmap option_fmap option_map list_fmap]. f_equal.
  specialize (IH (pre ++ [x])). rewrite <- app_assoc, length_app in IH.
  cbn [length app] in IH. by rewrite Nat.add_1_r in IH.
Qed.

Section Unreachable.
Variables (env : environment) (config : BatchConfig).
Hypothesis Horder : ∀ i n, completionOrder env i n ≡ₚ seq 0 n.
Hypothesis Hrejected : ∀ log q, postExperiment env log q = Rejected.

Local Abbreviation budget := (count_or (maxConcurrent config) 3).
Local Abbreviation failed := (fun e => failed_setup e fetch_failed).
Local Abbreviation refused := (fun e => error_result e fetch_failed).

Lemma provision_rejected e log :
  provision env config e log
  = (failed_setup e fetch_failed, log ++ [experiment_request config e]).
Proof.
  unfold provision, provision_steps.
  unfold mbind at 1, io_bind at 1, createExperiment at 1, request_json at 1.
  by rewrite Hrejected.
Qed.

Lemma settle_rejected batch order : ∀ slots log,
  (settle order (provision env config <$> batch) slots log).2
  = log ++ omap (fun i => experiment_request config <$> batch !! i) order.
Proof.
  induction order as [|i order IH]; intros slots log; cbn [settle omap list_omap].
  - by rewrite app_nil_r.
  - rewrite list_lookup_fmap.
    destruct (batch !! i) as [e|]; cbn [fmap option_fmap option_map].
    + rewrite provision_rejected, IH. by rewrite <- app_assoc.
    + apply IH.
Qed.

Lemma record_failed batch : ∀ rs0 log,
  foldl (fun '(results, log) setup =>
           let '(result, log) := record_setup env config setup log in
           (results ++ [result], log))
        (rs0, log) (failed <$> batch)
  = (rs0 ++ (refused <$> batch), log).
Proof.
  induction batch as [|e batch IH]; intros rs0 log; cbn [fmap list_fmap foldl].
  - by rewrite app_nil_r.
  - change (record_setup env config (failed_setup e fetch_failed) log)
      with (error_result e fetch_failed, log).
    cbv beta iota. by rewrite IH, <- app_assoc.
Qed.

(** A window against the unreachable server: one refused request per unit,
    no poll, no export. *)
Lemma window_rejected all i st :
  ∃ st' sent,
    window env config all i st = Some st'
    ∧ results st' = results st ++ (refused <$> take budget (drop i all))
    ∧ calls st' = calls st ++ sent
    ∧ sent ≡ₚ experiment_request config <$> take budget (drop i all).
Proof.
  unfold window. set (batch := take budget (drop i all)).
  pose proof (promise_all_log (completionOrder env i (length batch))
                (provision env config <$> batch) (calls st)) as Hlog.
  destruct (promise_all_settles (provision env config <$> batch)
              (completionOrder env i (length batch)) (calls st))
    as (setups & log1 & Hall & Hsetups).
  { by rewrite length_fmap. }
  rewrite Hall in Hlog |- *. cbn [snd] in Hlog. rewrite settle_rejected in Hlog.
  subst log1. cbn [mbind option_bind].
  assert (setups = failed <$> batch) as ->.
  { apply Forall2_fmap_eq. apply Forall2_fmap_l in Hsetups.
    eapply Forall2_impl; [exact Hsetups|]. intros e s [l ->].
    by rewrite provision_rejected. }
  rewrite filter_none.
  2:{ intros s Hs. apply list_elem_of_fmap in Hs as (e & -> & _). by cbn. }
  change (0 <? length []) with false. rewrite andb_false_r.
  cbn [mbind option_bind]. rewrite record_failed.
  eexists _, _. split; [reflexivity|]. cbn [results calls].
  split; [done|]. split; [done|].
  pose proof (omap_over_indices (experiment_request config) batch []) as Hsent.
  cbn [app length] in Hsent. by rewrite Horder, Hsent.
Qed.

Lemma windows_rejected all fuel : ∀ i st,
  length all - i ≤ fuel →
  ∃ st' sent,
    windows env config all fuel i st = Some st'
    ∧ results st' = results st ++ (refused <$> drop i all)
    ∧ calls st' = calls st ++ sent
    ∧ sent ≡ₚ experiment_request config <$> drop i all.
Proof.
  pose proof (budget_pos config) as Hm.
  assert (∀ i st, length all ≤ i →
            ∃ st' sent,
              Some st = Some st'
              ∧ results st' = results st ++ (refused <$> drop i all)
              ∧ calls st' = calls st ++ sent
              ∧ sent ≡ₚ experiment_request config <$> drop i all) as Hdone.
  { intros i st Hi. exists st, []. rewrite drop_ge, !app_nil_r by done. done. }
  induction fuel as [|fuel IH]; intros i st Hfuel; cbn [windows].
  { destruct (Nat.ltb_spec i (length all)) as [Hi|Hi]; [lia|]. by apply Hdone. }
  destruct (Nat.ltb_spec i (length all)) as [Hi|Hi]; [|by apply Hdone].
  destruct (window_rejected all i st) as (st1 & sent1 & -> & Hrs1 & Hcalls1 & Hsent1).
  cbn [mbind option_bind].
  destruct (IH (i + budget) st1) as (st' & sent2 & Hrest & Hrs2 & Hcalls2 & Hsent2);
    [lia|].
  exists st', (sent1 ++ sent2). split; [done|].
  rewrite Hrs2, Hrs1, Hcalls2, Hcalls1, <- !app_assoc.
  set (batch := take budget (drop i all)) in *.
  assert (drop i all = batch ++ drop (i + budget) all) as ->.
  { unfold batch. by rewrite <- drop_drop, take_drop. }
  rewrite !fmap_app. split; [done|]. split; [done|].
  by rewrite Hsent1, Hsent2.
Qed.
End Unreachable.

(** X23.  When the server cannot be reached, every experiment request
    being rejected, the run ends without waiting, whether or not completion
    is awaited and whatever the pollers' clocks: every unit ends in an error
    result with the message of the rejected fetch, and the requests sent are
    the experiment requests of the specs, one each, with no cohort,
    participant or export request. *)
Theorem unreachable_server_fails_every_unit env config :
  (∀ i n, completionOrder env i n ≡ₚ seq 0 n) →
  (∀ log q, postExperiment env log q = Rejected) →
  ∃ st,
    createBatchExperiments env config = Some st
    ∧ results st = (fun e => error_result e fetch_failed) <$> enumerated config
    ∧ calls st ≡ₚ experiment_request config <$> enumerated config.
Proof.
  intros Horder Hrejected. unfold createBatchExperiments, enumerated.
  destruct (select_behaviors config) as [message|behaviors].
  - eexists. split; [reflexivity|]. by split.
  - set (all := allExperiments config behaviors).
    destruct (windows_rejected env config Horder Hrejected all (length all) 0 empty_run)
      as (st & sent & Hrun & Hrs & Hcalls & Hsent); [lia|].
    exists st. split; [done|]. rewrite Hrs, Hcalls, drop_0 in *. by split.
Qed.

(** The full design against the unreachable server, completion awaited,
    the pollers' clocks stopped: twenty-five errors, twenty-five requests. *)
Lemma unreachable_server_fails_every_unit_witness :
  waitForCompletion cli_config = true
  ∧ waitForExperimentCompletion cli_config
      (pollClock unreachable_env "e" "c").1 (pollClock unreachable_env "e" "c").2
      "e" "c" = None
  ∧ ∃ st,
      createBatchExperiments unreachable_env cli_config = Some st
      ∧ length (results st) = 25
      ∧ length (calls st) = 25.
Proof.
  split; [reflexivity|]. split; [reflexivity|].
  destruct (unreachable_server_fails_every_unit unreachable_env cli_config)
    as (st & Hrun & Hrs & Hcalls); [done|done|].
  exists st. split; [exact Hrun|]. split.
  - rewrite Hrs. reflexivity.
  - rewrite Hcalls. reflexivity.
Defined.

(** ** The exclusion list *)

Lemma split_commas_word n :
  no_comma n = true → split_commas n = [n].
Proof.
  induction n as [|c n IH]; [done|].
  cbn [no_comma string_forall split_commas]. fold (no_comma n).
  intros [Hc Hn]%andb_true_iff. apply negb_true_iff in Hc. rewrite Hc.
  by rewrite IH.
Qed.

Lemma split_commas_cons n s :
  no_comma n = true → split_commas (n +:+ "," +:+ s) = n :: split_commas s.
Proof.
  induction n as [|c n IH].
  - intros _. reflexivity.
  - cbn [no_comma string_forall]. fold (no_comma n).
    intros [Hc Hn]%andb_true_iff. apply negb_true_iff in Hc.
    change (String c n +:+ ?x) with (String c (n +:+ x)).
    cbn [split_commas]. by rewrite Hc, IH.
Qed.

Lemma split_commas_join entries :
  entries ≠ [] → Forall (fun n => no_comma n = true) entries →
  split_commas (join "," entries) = entries.
Proof.
  intros Hne Hwords. induction Hwords as [|n entries Hn Hwords IH]; [done|].
  destruct entries as [|m entries].
  - by apply split_commas_word.
  - change (join "," (n :: m :: entries)) with (n +:+ "," +:+ join "," (m :: entries)).
    rewrite split_commas_cons by done. f_equal. by apply IH.
Qed.

Lemma includes_elem_of l name : includes l name = true ↔ name ∈ l.
Proof.
  unfold includes. rewrite existsb_exists. split.
  - intros (a & Ha & Heq). apply String.eqb_eq in Heq as ->. by apply list_elem_of_In.
  - intros Hin. exists name. split; [by apply list_elem_of_In|apply String.eqb_refl].
Qed.

(** X24.  The exclusion flag is read as a comma-separated list whose
    entries are trimmed: written as entries joined by commas, each without
    a comma of its own but with any white space around it, it names the
    trimmed entries, and no behaviour bearing one of these names is
    selected. *)
Theorem exclusion_list_round_trip config entries :
  entries ≠ [] →
  Forall (fun n => no_comma n = true) entries →
  excludeBehavior config = Some (join "," entries) →
  truthy (excludeBehavior config) = true →
  excludeList config = trim <$> entries
  ∧ ∀ behaviors,
      select_behaviors config = inr behaviors →
      Forall (fun b => fb_name b ∉ trim <$> entries) behaviors.
Proof.
  intros Hne Hwords Hflag Htruthy.
  assert (excludeList config = trim <$> entries) as Hlist.
  { unfold excludeList. rewrite Hflag. cbn [show default id].
    by rewrite split_commas_join. }
  split; [done|]. intros behaviors Hsel.
  apply select_behaviors_inr in Hsel as (_ & _ & _ & Hexcl).
  specialize (Hexcl Htruthy). rewrite Hlist in Hexcl.
  eapply Forall_impl; [exact Hexcl|]. intros b Hb Hin.
  apply includes_elem_of in Hin. congruence.
Qed.

(** [--exclude-behavior "silent, short_responses ,clarifying_questions"]
    leaves the last two behaviours. *)
Lemma exclusion_list_round_trip_witness :
  excludeBehavior four_units_config
  = Some (join "," ["silent"; " short_responses "; "clarifying_questions"])
  ∧ excludeList four_units_config
    = ["silent"; "short_responses"; "clarifying_questions"]
  ∧ ∀ behaviors,
      select_behaviors four_units_config = inr behaviors →
      Forall (fun b => fb_name b ∉ ["silent"; "short_responses"; "clarifying_questions"])
             behaviors.
Proof.
  split; [reflexivity|].
  apply (exclusion_list_round_trip four_units_config
           ["silent"; " short_responses "; "clarifying_questions"]).
  - done.
  - by repeat constructor.
  - reflexivity.
  - reflexivity.
Defined.

(** ** The pollers' answers *)






(** ** The size of the design without filters *)

(** X26.  Without a behaviour filter and without exclusion the design has
    25 specs, or five per scenario when scenarios are loaded; test mode cuts
    the behaviours to one but not the scenarios: it has one spec in
    group-size mode and one per scenario in scenario mode, each scenario
    once and in order. *)
Theorem design_sizes config :
  truthy (behaviorFilter config) = false →
  truthy (excludeBehavior config) = false →
  length (enumerated config)
  = match scenarios config with
    | Some (s :: ss) => (if testMode config then 1 else 5) * length (s :: ss)
    | _ => if testMode config then 1 else 25
    end
  ∧ (testMode config = true →
     ∀ s ss, scenarios config = Some (s :: ss) →
       ec_scenario <$> enumerated config = Some <$> s :: ss).
Proof.
  intros Hfilter Hexcl.
  assert (select_behaviors config
          = inr (if testMode config then take 1 FACILITATOR_BEHAVIORS
                 else FACILITATOR_BEHAVIORS)) as Hsel.
  { rewrite select_behaviors_stages. unfold included_behaviors, remaining_behaviors.
    by rewrite Hfilter, Hexcl. }
  rewrite (enumerated_nested _ _ Hsel). split.
  - rewrite length_blocks. unfold axis, groupSizes.
    by destruct (scenarios config) as [[|s ss]|], (testMode config);
      rewrite ?length_fmap.
  - intros -> s ss Hscenarios. unfold axis. rewrite Hscenarios.
    cbn [take FACILITATOR_BEHAVIORS flat_map]. rewrite app_nil_r.
    rewrite <- !list_fmap_compose. by apply list_fmap_ext.
Qed.

(** [--test] with two scenarios runs two units. *)
Lemma design_sizes_witness :
  testMode test_two_scenarios_config = true
  ∧ length (enumerated test_two_scenarios_config) = 2
  ∧ ec_scenario <$> enumerated test_two_scenarios_config = [Some solo; Some couple].
Proof.
  split; [reflexivity|].
  destruct (design_sizes test_two_scenarios_config eq_refl eq_refl) as [Hlen Hall].
  split; [exact Hlen|]. exact (Hall eq_refl solo [couple] eq_refl).
Defined.
